(** * html2canvas: the capture orchestrator of [src/index.ts]

    A shallow embedding of the entry points of the library
    ([html2canvas], [html2canvasSegmented], [html2canvasSegmentedGetBlobList])
    and of the helpers they are built from ([prepare], [render],
    [parseBackgroundColor], [releaseCanvas], [destroyContainer]).

    Conventions of the model.
    - A JS [number] is a double.  The orchestrator is written once, over an
      [Arithmetic] of numbers, and read in two of them.  In [integers] the
      lengths the sweep computes with ([scrollHeight], [scrollWidth],
      [segmentHeight], [curTop]) are integers ([Z]), the device pixel ratio
      and element boxes are rationals ([Q]) and every operation is exact;
      the general theorems are stated in it, for whole numbers of pixels.
      In [doubles] every number is a binary64 float of the kernel, with
      [NaN], the infinities and rounding; the code is evaluated in it where
      a [number] that is not a whole number of pixels makes a difference.
    - Every [async] function is a computation [Async U A]: it takes the
      world (the live document and the caller's own state [U]) and yields
      the events it emitted in order, the final world and a completion.
    - The modules imported by [index.ts] (colour parsing, the document
      cloner, the tree parser, the two renderers) and the browser are
      gathered in one record, [Host]; the orchestrator is a function of it.
    - A [while] loop may not end, so the sweep takes a number of loop tests
      it may perform ([fuel]) and completes with [OutOfFuel] when it would
      need more.
    - Calls to the logger at [debug] level are not traced, and neither is
      [CacheStorage.setContext(window)], which runs once when the module
      is loaded. *)

From Stdlib Require Import ZArith QArith Qround List String Bool Lia.
From Stdlib Require Import Floats Uint63.
Import ListNotations.

Set Warnings "-inexact-float".

Local Open Scope Z_scope.

Declare Scope async_scope.
Delimit Scope async_scope with async.

(** ** Numbers *)

(** The operations on numbers that [index.ts] performs.  [number] is the
    sort of the numbers that are whole in a browser (lengths in CSS pixels,
    scroll offsets, the timeout), [ratio] that of the others (the device
    pixel ratio, the boxes of elements); in JS both are the one type
    [number].  [ToUint32] is the conversion a number undergoes when it is
    assigned to an [unsigned long] attribute of the DOM. *)
Class Arithmetic : Type := {
  number : Type;
  ratio : Type;
  literal : Z -> number;
  to_ratio : number -> ratio;
  num_add : number -> number -> number;
  num_sub : number -> number -> number;
  num_lt : number -> number -> bool;
  Math_min : number -> number -> number;
  ratio_add : ratio -> ratio -> ratio;
  ratio_mul : ratio -> ratio -> ratio;
  Math_floor : ratio -> number;
  Math_ceil : ratio -> number;
  ToUint32 : number -> Z
}.

(** [a ?? b] *)
Definition nullish {A : Type} (o : option A) (d : A) : A :=
  match o with
  | Some a => a
  | None => d
  end.

Notation "o ?? d" := (nullish o d) (at level 45, left associativity).

(** ** Colours, surfaces, geometry *)

(** A colour is the 32-bit number the colour parser yields. *)
Definition Color := Z.

Inductive Pixels : Type :=
| Blank
| Painted (tag : Z).

(** An [HTMLCanvasElement]: its two dimensions and what is drawn on it. *)
Record Canvas : Type := mkCanvas {
  cv_width : Z;
  cv_height : Z;
  cv_pixels : Pixels
}.

(** [document.createElement('canvas')] *)
Definition createCanvas : Canvas := mkCanvas 300 150 Blank.

(** What an [unsigned long] attribute that reflects a content attribute
    with a default keeps of the value assigned to it: the value when it is
    at most 2147483647, the default otherwise. *)
Definition reflected (default v : Z) : Z :=
  if v <=? 2147483647 then v else default.

(** [ctx.clearRect(0, 0, canvas.width, canvas.height)] *)
Definition clear (c : Canvas) : Canvas :=
  mkCanvas (cv_width c) (cv_height c) Blank.

(** A node of a document as [parseBackgroundColor] sees it: its identity
    and [getComputedStyle(node).backgroundColor]. *)
Record NodeRef : Type := mkNodeRef {
  ref_id : nat;
  ref_backgroundColor : string
}.

Inductive JsType : Type :=
| TUndefined | TObject | TBoolean | TNumber | TString | TFunction.

Definition is_object_type (t : JsType) : bool :=
  match t with
  | TObject => true
  | _ => false
  end.

(** [backgroundColor?: string | null] *)
Inductive Override : Type :=
| Unset
| Null
| Str (s : string).

Record CloneConfigurations : Type := mkCloneConfigurations {
  cc_allowTaint : bool;
  cc_inlineImages : bool;
  cc_copyStyles : bool
}.

(** The root [ElementContainer] that [parseTree] returns: its
    [styles.backgroundColor] and the rest of the tree. *)
Record PaintNode : Type := mkPaintNode {
  styles_backgroundColor : Color;
  subtree : nat
}.

Definition with_backgroundColor (n : PaintNode) (c : Color) : PaintNode :=
  mkPaintNode c (subtree n).

(** ** Failures and completions *)

(** What a promise is rejected with: an [Error] object or a bare string. *)
Inductive Rejection : Type :=
| ErrorObj (message : string)
| Reason (text : string).

Inductive Try (A : Type) : Type :=
| Ok (a : A)
| Throw (e : Rejection).

Arguments Ok {A} a.
Arguments Throw {A} e.

Inductive Completion (A : Type) : Type :=
| Resolved (a : A)
| Rejected (e : Rejection)
| Suspended
| OutOfFuel.

Arguments Resolved {A} a.
Arguments Rejected {A} e.
Arguments Suspended {A}.
Arguments OutOfFuel {A}.

(** ** What the per-segment callback does *)

Inductive Settlement : Type :=
| Fulfils
| RejectsWith (e : Rejection)
| NeverSettles.

(** What [op(c)] does: it throws, or returns a value that is a thenable
    ([Some]) or is not ([None]: [undefined], [null], anything without a
    callable [then]). *)
Inductive OpResult : Type :=
| OpThrows (e : Rejection)
| OpReturns (thenable : option Settlement).

Definition Callback (U : Type) : Type := Canvas -> U -> U * OpResult.

Definition Container := nat.

Inductive Painter : Type :=
| Software
| Foreign.

(** A [Blob]: its MIME type and its bytes. *)
Record Blob : Type := mkBlob {
  blob_type : string;
  blob_payload : nat
}.

(** ** The world *)

(** The containers now attached to the live document, the next container
    identity, and the state of the caller. *)
Record World (U : Type) : Type := mkWorld {
  containers : list Container;
  fresh : nat;
  user : U
}.

Arguments mkWorld {U} containers fresh user.
Arguments containers {U} w.
Arguments fresh {U} w.
Arguments user {U} w.

Definition set_user {U T : Type} (w : World U) (t : T) : World T :=
  mkWorld (containers w) (fresh w) t.

Definition orelse {A : Type} (a b : option A) : option A :=
  match a with
  | Some _ => a
  | None => b
  end.

Section Model.

Context {num : Arithmetic}.

(** [canvas.width = v] and [canvas.height = v]: the number is converted to
    an [unsigned long], the attribute falls back to its default (300 and
    150) when the result is out of range, and the bitmap is reset. *)
Definition set_width (c : Canvas) (v : number) : Canvas :=
  mkCanvas (reflected 300 (ToUint32 v)) (cv_height c) Blank.

Definition set_height (c : Canvas) (v : number) : Canvas :=
  mkCanvas (cv_width c) (reflected 150 (ToUint32 v)) Blank.

Record Bounds : Type := mkBounds {
  b_left : ratio;
  b_top : ratio;
  b_width : ratio;
  b_height : ratio
}.

(** ** The document *)

Record Window : Type := mkWindow {
  innerWidth : number;
  innerHeight : number;
  pageXOffset : number;
  pageYOffset : number;
  devicePixelRatio : option ratio
}.

Record Document : Type := mkDocument {
  defaultView : option Window;
  documentElement : option NodeRef;
  body : option NodeRef
}.

Record HTMLElement : Type := mkElement {
  node_id : nat;
  scrollWidth : number;
  scrollHeight : number;
  ownerDocument : option Document
}.

(** What a caller can pass at run time where the signature says
    [HTMLElement]. *)
Inductive Arg : Type :=
| ArgNull
| ArgUndefined
| ArgBoolean (b : bool)
| ArgNumber (n : Z)
| ArgString (s : string)
| ArgFunction
| ArgElement (e : HTMLElement).

Definition typeof (a : Arg) : JsType :=
  match a with
  | ArgNull => TObject
  | ArgUndefined => TUndefined
  | ArgBoolean _ => TBoolean
  | ArgNumber _ => TNumber
  | ArgString _ => TString
  | ArgFunction => TFunction
  | ArgElement _ => TObject
  end.

Definition truthy (a : Arg) : bool :=
  match a with
  | ArgNull | ArgUndefined => false
  | ArgBoolean b => b
  | ArgNumber n => negb (n =? 0)
  | ArgString s => negb (String.eqb s EmptyString)
  | ArgFunction | ArgElement _ => true
  end.

(** [a == null] *)
Definition loosely_null (a : Arg) : bool :=
  match a with
  | ArgNull | ArgUndefined => true
  | _ => false
  end.

Definition as_element (a : Arg) : option HTMLElement :=
  match a with
  | ArgElement e => Some e
  | _ => None
  end.

(** ** Options *)

(** [Partial<Options>]; the callbacks [onclone] and [ignoreElements] and
    the [cache] are consumed by the cloner and the context only and are
    left to the host. *)
Record Options : Type := mkOptions {
  opt_allowTaint : option bool;
  opt_imageTimeout : option number;
  opt_proxy : option string;
  opt_useCORS : option bool;
  opt_logging : option bool;
  opt_windowWidth : option number;
  opt_windowHeight : option number;
  opt_scrollX : option number;
  opt_scrollY : option number;
  opt_backgroundColor : Override;
  opt_foreignObjectRendering : option bool;
  opt_removeContainer : option bool;
  opt_canvas : option Canvas;
  opt_scale : option ratio;
  opt_x : option number;
  opt_y : option number;
  opt_width : option number;
  opt_height : option number
}.

(** [{}] *)
Definition emptyOptions : Options :=
  mkOptions None None None None None None None None None Unset
            None None None None None None None None.

(** [{...option, canvas, y: curTop, height: height, width: ele.scrollWidth}] *)
Definition segmentOptions (o : Options) (canvas : Canvas)
    (curTop height width : number) : Options :=
  mkOptions (opt_allowTaint o) (opt_imageTimeout o) (opt_proxy o)
            (opt_useCORS o) (opt_logging o) (opt_windowWidth o)
            (opt_windowHeight o) (opt_scrollX o) (opt_scrollY o)
            (opt_backgroundColor o) (opt_foreignObjectRendering o)
            (opt_removeContainer o) (Some canvas) (opt_scale o)
            (opt_x o) (Some curTop) (Some width) (Some height).

Record Context : Type := mkContext {
  ctx_logging : bool;
  ctx_allowTaint : bool;
  ctx_imageTimeout : number;
  ctx_proxy : option string;
  ctx_useCORS : bool;
  ctx_windowBounds : Bounds
}.

Record RenderConfigurations : Type := mkRenderConfigurations {
  rc_canvas : option Canvas;
  rc_backgroundColor : Color;
  rc_scale : ratio;
  rc_x : ratio;
  rc_y : ratio;
  rc_width : number;
  rc_height : number
}.

(** ** Events *)

(** What a run does that is visible outside the function: the calls to
    the cloner, to [render] and to the painters (with what the painter
    answered), to the callback (with what it did), the waiting for its
    promise, the calls that clear and release a canvas, and the clean-up. *)
Inductive Event : Type :=
| EvClone (node : nat)
| EvInsertContainer (c : Container)
| EvRender (y height : option number)
| EvPaint (p : Painter) (cfg : RenderConfigurations) (root : option PaintNode)
    (result : Try Canvas)
| EvOp (raster : Canvas) (did : OpResult)
| EvAwait
| EvResume
| EvClearRect (w h : Z)
| EvReleaseCanvas
| EvRemoveCanvas
| EvDestroyContainer (c : Container) (removed : bool)
| EvLogError (message : string).

(** ** Asynchronous computations *)

Record Run (U A : Type) : Type := mkRun {
  events : list Event;
  final : World U;
  completion : Completion A
}.

Arguments mkRun {U A} events final completion.
Arguments events {U A} r.
Arguments final {U A} r.
Arguments completion {U A} r.

Definition Async (U A : Type) : Type := World U -> Run U A.

Definition ret {U A : Type} (a : A) : Async U A :=
  fun w => mkRun [] w (Resolved a).

Definition reject {U A : Type} (e : Rejection) : Async U A :=
  fun w => mkRun [] w (Rejected e).

Definition emit {U : Type} (e : Event) : Async U unit :=
  fun w => mkRun [e] w (Resolved tt).

Definition bind {U A B : Type} (m : Async U A) (f : A -> Async U B)
    : Async U B :=
  fun w =>
    let r := m w in
    match completion r with
    | Resolved a =>
        let r' := f a (final r) in
        mkRun (events r ++ events r') (final r') (completion r')
    | Rejected e => mkRun (events r) (final r) (Rejected e)
    | Suspended => mkRun (events r) (final r) Suspended
    | OutOfFuel => mkRun (events r) (final r) OutOfFuel
    end.

Definition lift {U A : Type} (t : Try A) : Async U A :=
  match t with
  | Ok a => ret a
  | Throw e => reject e
  end.

Notation "x <- m ;; k" := (bind m (fun x => k))
  (at level 61, m at next level, right associativity) : async_scope.
Notation "' pat <- m ;; k" := (bind m (fun x => match x with pat => k end))
  (at level 61, pat pattern, m at next level, right associativity)
  : async_scope.
Notation "m ;; k" := (bind m (fun _ => k))
  (at level 61, right associativity) : async_scope.

(** ** The per-segment callback *)

Definition invoke {U : Type} (op : Callback U) (c : Canvas)
    : Async U (option Settlement) :=
  fun w =>
    let (s', r) := op c (user w) in
    match r with
    | OpThrows e => mkRun [EvOp c r] (set_user w s') (Rejected e)
    | OpReturns t => mkRun [EvOp c r] (set_user w s') (Resolved t)
    end.

(** [await rst] *)
Definition await {U : Type} (t : Settlement) : Async U unit :=
  fun w =>
    match t with
    | Fulfils => mkRun [EvAwait; EvResume] w (Resolved tt)
    | RejectsWith e => mkRun [EvAwait] w (Rejected e)
    | NeverSettles => mkRun [EvAwait] w Suspended
    end.

(** ** The host: what [index.ts] imports, and the browser *)

(** The functions of the modules that are not under [src/], taken as
    parameters, and the three answers of the browser that the orchestrator
    asks for: the device pixel ratio of the global window, whether a
    canvas yields a 2D context, and [canvas.toBlob].  [parseColor] parses
    or throws. *)
Record Host : Type := mkHost {
  (* ./css/types/color *)
  COLORS_TRANSPARENT : Color;
  isTransparent : Color -> bool;
  parseColor : Context -> string -> Try Color;
  (* ./css/layout/bounds *)
  parseBounds : Context -> HTMLElement -> Bounds;
  parseDocumentSize : Document -> Bounds;
  (* ./dom/node-parser *)
  isBodyElement : HTMLElement -> bool;
  isHTMLElement : HTMLElement -> bool;
  parseTree : Context -> HTMLElement -> PaintNode;
  (* ./dom/document-cloner *)
  clonedReferenceElement :
    Context -> HTMLElement -> CloneConfigurations -> option HTMLElement;
  toIFrame : HTMLElement -> Document -> Bounds -> Try unit;
  (* ./render/canvas *)
  CanvasRenderer_render : RenderConfigurations -> PaintNode -> Try Canvas;
  ForeignObjectRenderer_render :
    RenderConfigurations -> HTMLElement -> Try Canvas;
  (* the browser *)
  window_devicePixelRatio : ratio;
  getContext2d : bool;
  toBlob : Canvas -> string -> Z -> option Blob
}.

(** ** The orchestrator *)

Section Orchestrator.

Variable host : Host.

Local Open Scope string_scope.
Local Open Scope Z_scope.
Local Open Scope async_scope.

(** [element === ownerDocument.documentElement] *)
Definition is_documentElement (element : HTMLElement) (d : Document) : bool :=
  match documentElement d with
  | Some r => Nat.eqb (node_id element) (ref_id r)
  | None => false
  end.

Definition null_dereference : Rejection :=
  ErrorObj "TypeError: cannot read properties of null".

(** [node ? parseColor(context, getComputedStyle(node).backgroundColor)
          : COLORS.TRANSPARENT] *)
Definition computedBackground (context : Context) (node : option NodeRef)
    : Try Color :=
  match node with
  | Some r => parseColor host context (ref_backgroundColor r)
  | None => Ok (COLORS_TRANSPARENT host)
  end.

(** [typeof override === 'string' ? parseColor(context, override)
       : override === null ? COLORS.TRANSPARENT : 0xffffffff] *)
Definition overrideColor (context : Context) (backgroundColorOverride : Override)
    : Try Color :=
  match backgroundColorOverride with
  | Str s => parseColor host context s
  | Null => Ok (COLORS_TRANSPARENT host)
  | Unset => Ok 0xffffffff%Z
  end.

(** The three colours are computed one after the other before the
    precedence is applied; a colour that does not parse throws there. *)
Definition parseBackgroundColor (context : Context) (element : HTMLElement)
    (backgroundColorOverride : Override) : Try Color :=
  match ownerDocument element with
  | None => Throw null_dereference
  | Some ownerDocument =>
      match computedBackground context (documentElement ownerDocument) with
      | Throw e => Throw e
      | Ok documentBackgroundColor =>
          match computedBackground context (body ownerDocument) with
          | Throw e => Throw e
          | Ok bodyBackgroundColor =>
              match overrideColor context backgroundColorOverride with
              | Throw e => Throw e
              | Ok defaultBackgroundColor =>
                  Ok (if is_documentElement element ownerDocument
                      then if isTransparent host documentBackgroundColor
                           then if isTransparent host bodyBackgroundColor
                                then defaultBackgroundColor
                                else bodyBackgroundColor
                           else documentBackgroundColor
                      else defaultBackgroundColor)
              end
          end
      end
  end.

(** The root handed to the software painter: [parseTree]'s root, with its
    background replaced by the transparent colour when it is the page
    background. *)
Definition paintRoot (backgroundColor : Color) (root : PaintNode) : PaintNode :=
  if Z.eqb backgroundColor (styles_backgroundColor root)
  then with_backgroundColor root (COLORS_TRANSPARENT host)
  else root.

Definition render {U : Type} (context : Context)
    (element clonedElement : HTMLElement) (opts : Options) : Async U Canvas :=
  emit (EvRender (opt_y opts) (opt_height opts)) ;;
  match ownerDocument element with
  | None => reject null_dereference
  | Some ownerDocument_ =>
      match defaultView ownerDocument_ with
      | None => reject (ErrorObj "Document is not attached to a Window")
      | Some defaultView_ =>
          let foreignObjectRendering :=
            opt_foreignObjectRendering opts ?? false in
          bounds <-
            (if isBodyElement host clonedElement
                || isHTMLElement host clonedElement
             then match ownerDocument clonedElement with
                  | Some d => ret (parseDocumentSize host d)
                  | None => reject null_dereference
                  end
             else ret (parseBounds host context clonedElement)) ;;
          backgroundColor <-
            lift (parseBackgroundColor context clonedElement
                    (opt_backgroundColor opts)) ;;
          let renderOptions :=
            mkRenderConfigurations
              (opt_canvas opts)
              backgroundColor
              (orelse (opt_scale opts) (devicePixelRatio defaultView_)
                 ?? to_ratio (literal 1))
              (ratio_add (to_ratio (opt_x opts ?? literal 0)) (b_left bounds))
              (ratio_add (to_ratio (opt_y opts ?? literal 0)) (b_top bounds))
              (opt_width opts ?? Math_ceil (b_width bounds))
              (opt_height opts ?? Math_ceil (b_height bounds)) in
          if foreignObjectRendering
          then
            let result :=
              ForeignObjectRenderer_render host renderOptions clonedElement in
            emit (EvPaint Foreign renderOptions None result) ;;
            lift result
          else
            let root := parseTree host context clonedElement in
            let root := paintRoot backgroundColor root in
            let result := CanvasRenderer_render host renderOptions root in
            emit (EvPaint Software renderOptions (Some root) result) ;;
            lift result
      end
  end.

(** Modelled from the spec: [DocumentCloner.toIFrame] is not under [src/];
    it "inserts a new, initially invisible container into the live
    document", unless the host makes it fail. *)
Definition insertContainer {U : Type} : Async U Container :=
  fun w =>
    let c := fresh w in
    mkRun [EvInsertContainer c]
          (mkWorld (c :: containers w) (Datatypes.S c) (user w))
          (Resolved c).

(** Modelled from the spec: [DocumentCloner.destroy] is not under [src/];
    destroying a container detaches it and answers [true], and "destroying
    the isolation container twice returns [false] the second time". *)
Definition DocumentCloner_destroy {U : Type} (c : Container) : Async U bool :=
  fun w =>
    if existsb (Nat.eqb c) (containers w)
    then mkRun [EvDestroyContainer c true]
               (mkWorld (filter (fun x => negb (Nat.eqb c x)) (containers w))
                        (fresh w) (user w))
               (Resolved true)
    else mkRun [EvDestroyContainer c false] w (Resolved false).

Definition destroyContainer {U : Type} (container : Container) : Async U bool :=
  DocumentCloner_destroy container.

Definition prepare {U : Type} (element : Arg) (opts : Options)
    : Async U (Context * HTMLElement * Container) :=
  if negb (truthy element) || negb (is_object_type (typeof element))
  then reject (Reason "Invalid element provided as first argument")
  else
    match as_element element with
    | None => reject (Reason "Invalid element provided as first argument")
    | Some e =>
        match ownerDocument e with
        | None => reject (ErrorObj "Element is not attached to a Document")
        | Some ownerDocument_ =>
            match defaultView ownerDocument_ with
            | None => reject (ErrorObj "Document is not attached to a Window")
            | Some defaultView_ =>
                let windowBounds :=
                  mkBounds
                    (to_ratio (opt_scrollX opts ?? pageXOffset defaultView_))
                    (to_ratio (opt_scrollY opts ?? pageYOffset defaultView_))
                    (to_ratio (opt_windowWidth opts ?? innerWidth defaultView_))
                    (to_ratio
                       (opt_windowHeight opts ?? innerHeight defaultView_)) in
                let context :=
                  mkContext (opt_logging opts ?? true)
                            (opt_allowTaint opts ?? false)
                            (opt_imageTimeout opts ?? literal 15000)
                            (opt_proxy opts)
                            (opt_useCORS opts ?? false)
                            windowBounds in
                let foreignObjectRendering :=
                  opt_foreignObjectRendering opts ?? false in
                let cloneOptions :=
                  mkCloneConfigurations (opt_allowTaint opts ?? false)
                                        foreignObjectRendering
                                        foreignObjectRendering in
                emit (EvClone (node_id e)) ;;
                match clonedReferenceElement host context e cloneOptions with
                | None => reject (Reason "Unable to find element in cloned iframe")
                | Some clonedElement =>
                    lift (toIFrame host e ownerDocument_ windowBounds) ;;
                    container <- insertContainer ;;
                    ret (context, clonedElement, container)
                end
            end
        end
    end.

(** The element behind an argument that [prepare] has accepted. *)
Definition element_of {U : Type} (a : Arg) : Async U HTMLElement :=
  match as_element a with
  | Some e => ret e
  | None => reject null_dereference
  end.

Definition renderElement {U : Type} (element : Arg) (opts : Options)
    : Async U Canvas :=
  ' (context, clonedElement, container) <- prepare element opts ;;
  e <- element_of element ;;
  canvas <- render context e clonedElement opts ;;
  (if opt_removeContainer opts ?? true
   then
     removed <- destroyContainer container ;;
     if negb removed
     then emit (EvLogError
                  "Cannot detach cloned iframe as it is not in the DOM anymore")
     else ret tt
   else ret tt) ;;
  ret canvas.

Definition html2canvas {U : Type} (element : Arg) (options : option Options)
    : Async U Canvas :=
  renderElement element (options ?? emptyOptions).

Definition releaseCanvas {U : Type} (canvas : Canvas) : Async U Canvas :=
  emit EvReleaseCanvas ;;
  let canvas := set_width canvas (literal 1) in
  let canvas := set_height canvas (literal 1) in
  (if getContext2d host then emit (EvClearRect 1 1) else ret tt) ;;
  ret (clear canvas).

Definition out_of_fuel {U A : Type} : Async U A :=
  fun w => mkRun [] w OutOfFuel.

Definition ctx_is_null : Rejection :=
  ErrorObj "ctx is null, maybe used too may resources".

Section Sweep.

Context {U : Type}.
Variable context : Context.
Variable ele clonedElement : HTMLElement.
Variable option_ : Options.
Variable segmentHeight : number.
Variable op : Callback U.
Variable scale : ratio.
Variable width totalHeight : number.

(** One pass through the body of the [while] loop; it yields the height
    of the segment and the scratch canvas as the pass leaves it.

    Modelled from the spec: the renderers are not under [src/]; a painter
    that is given a target surface "must reuse it (resized and reset, not
    reallocated)", so the canvas [c] that [render] resolves to is the
    scratch canvas itself, and [releaseCanvas(c)] releases that one.
    [ctx.getContextAttributes().willReadFrequently = true] writes to a
    fresh dictionary and changes nothing. *)
Definition segment (curTop : number) (canvas : Canvas)
    : Async U (number * Canvas) :=
  let height := Math_min (num_sub totalHeight curTop) segmentHeight in
  let canvas :=
    set_width canvas (Math_floor (ratio_mul scale (to_ratio width))) in
  let canvas :=
    set_height canvas (Math_floor (ratio_mul scale (to_ratio height))) in
  if getContext2d host
  then
    c <- render context ele clonedElement
           (segmentOptions option_ canvas curTop height (scrollWidth ele)) ;;
    rst <- invoke op c ;;
    match rst with
    | Some thenable => await thenable
    | None => ret tt
    end ;;
    emit (EvClearRect (cv_width c) (cv_height c)) ;;
    c <- releaseCanvas (clear c) ;;
    ret (height, c)
  else reject ctx_is_null.

(** [while (curTop < totalHeight) { ... curTop += height; }] *)
Fixpoint sweep (fuel : nat) (curTop : number) (canvas : Canvas)
    : Async U unit :=
  match fuel with
  | O => out_of_fuel
  | Datatypes.S fuel' =>
      if num_lt curTop totalHeight
      then
        ' (height, canvas) <- segment curTop canvas ;;
        sweep fuel' (num_add curTop height) canvas
      else ret tt
  end.

End Sweep.

(** The code of [html2canvasSegmented] from [const width] on, given the
    scratch canvas; [presize] tells whether the two assignments before
    the loop are performed. *)
Definition capture_segments {U : Type} (presize : bool) (fuel : nat)
    (e : HTMLElement) (option_ : Options) (segmentHeight : number)
    (op : Callback U) (context : Context) (clonedElement : HTMLElement)
    (container : Container) (scale : ratio) (canvas : Canvas) : Async U unit :=
  let width := scrollWidth e in
  let canvas :=
    if presize
    then set_height
           (set_width canvas (Math_floor (ratio_mul scale (to_ratio width))))
           (Math_floor (ratio_mul scale (to_ratio segmentHeight)))
    else canvas in
  let totalHeight := scrollHeight e in
  let curTop := literal 0 in
  sweep context e clonedElement option_ segmentHeight op scale width
        totalHeight fuel curTop canvas ;;
  emit EvRemoveCanvas ;;
  destroyContainer container ;;
  ret tt.

(** The body of [html2canvasSegmented] up to the creation of the scratch
    canvas and the test of its 2D context. *)
Definition segmented {U : Type} (presize : bool) (fuel : nat) (ele : Arg)
    (option_ : option Options) (segmentHeight : number) (op : Callback U)
    : Async U unit :=
  let option_ := option_ ?? emptyOptions in
  if loosely_null ele
  then reject (ErrorObj "element is null")
  else
    ' (context, clonedElement, container) <- prepare ele option_ ;;
    e <- element_of ele ;;
    let scale := window_devicePixelRatio host in
    let canvas := createCanvas in
    if negb (getContext2d host)
    then reject ctx_is_null
    else capture_segments presize fuel e option_ segmentHeight op context
                          clonedElement container scale canvas.

(** [html2canvasSegmented] as the source has it: the canvas is sized
    before the loop. *)
Definition html2canvasSegmented {U : Type} :=
  @segmented U true.

(** [html2canvasSegmented] without the assignments of [canvas.width] and
    [canvas.height] that precede the loop. *)
Definition html2canvasSegmented_unsized {U : Type} :=
  @segmented U false.

(** The callback of [html2canvasSegmentedGetBlobList]: encode, and push
    the blob on [rst] when there is one. *)
Definition blobCallback (mineType : string) : Callback (list Blob) :=
  fun c rst =>
    match toBlob host c mineType 1 with
    | Some blob => ((rst ++ [blob])%list, OpReturns (Some Fulfils))
    | None => (rst, OpReturns (Some (RejectsWith (ErrorObj "to blob failed!"))))
    end.

Definition html2canvasSegmentedGetBlobList {U : Type} (fuel : nat) (ele : Arg)
    (option_ : option Options) (segmentHeight : number)
    (mineType : option string) : Async U (list Blob) :=
  fun w =>
    let mineType := mineType ?? "image/jpeg" in
    let rst : list Blob := [] in
    let r := html2canvasSegmented fuel ele option_ segmentHeight
               (blobCallback mineType) (set_user w rst) in
    mkRun (events r) (set_user (final r) (user w))
          match completion r with
          | Resolved _ => Resolved (user (final r))
          | Rejected e => Rejected e
          | Suspended => Suspended
          | OutOfFuel => OutOfFuel
          end.

End Orchestrator.

(** ** Reading a trace *)

(** The windows [(curTop, height)] for which [render] was called. *)
Fixpoint windows (evs : list Event) : list (number * number) :=
  match evs with
  | [] => []
  | EvRender (Some y) (Some h) :: rest => (y, h) :: windows rest
  | _ :: rest => windows rest
  end.

(** The rasters handed to the callback. *)
Fixpoint rasters (evs : list Event) : list Canvas :=
  match evs with
  | [] => []
  | EvOp c _ :: rest => c :: rasters rest
  | _ :: rest => rasters rest
  end.

(** The events of painting work: a call of [render] or of a painter. *)
Definition is_painting (e : Event) : bool :=
  match e with
  | EvRender _ _ | EvPaint _ _ _ _ => true
  | _ => false
  end.

(** The events of the clean-up that follows the loop. *)
Definition is_cleanup (e : Event) : bool :=
  match e with
  | EvRemoveCanvas | EvDestroyContainer _ _ => true
  | _ => false
  end.

(** The containers put into the document. *)
Fixpoint inserted (evs : list Event) : list Container :=
  match evs with
  | [] => []
  | EvInsertContainer c :: rest => c :: inserted rest
  | _ :: rest => inserted rest
  end.

(** The canvases the painters resolved to. *)
Fixpoint painted (evs : list Event) : list Canvas :=
  match evs with
  | [] => []
  | EvPaint _ _ _ (Ok c) :: rest => c :: painted rest
  | _ :: rest => painted rest
  end.

(** The number of calls of [releaseCanvas]. *)
Fixpoint releases (evs : list Event) : nat :=
  match evs with
  | [] => O
  | EvReleaseCanvas :: rest => S (releases rest)
  | _ :: rest => releases rest
  end.

(** The calls of the painters: which one, and what it was given. *)
Fixpoint paintings (evs : list Event)
    : list (Painter * RenderConfigurations * option PaintNode) :=
  match evs with
  | [] => []
  | EvPaint k cfg root _ :: rest => (k, cfg, root) :: paintings rest
  | _ :: rest => paintings rest
  end.

End Model.

Arguments mkRun {num U A} events final completion.
Arguments events {num U A} r.
Arguments final {num U A} r.
Arguments completion {num U A} r.

(** ** The two arithmetics *)

(** Whole numbers of pixels and exact ratios. *)
#[global] Instance integers : Arithmetic :=
  {| number := Z;
     ratio := Q;
     literal := fun z => z;
     to_ratio := inject_Z;
     num_add := Z.add;
     num_sub := Z.sub;
     num_lt := Z.ltb;
     Math_min := Z.min;
     ratio_add := Qplus;
     ratio_mul := Qmult;
     Math_floor := Qfloor;
     Math_ceil := Qceiling;
     ToUint32 := fun z => z mod 4294967296 |}.

(** The operations of JS on doubles that the kernel does not provide. *)
Module Double.

(** The double of a whole number below 2^63 in magnitude. *)
Definition of_Z (z : Z) : float :=
  match z with
  | Z0 => PrimFloat.zero
  | Zpos _ => PrimFloat.of_uint63 (Uint63.of_Z z)
  | Zneg p => PrimFloat.opp (PrimFloat.of_uint63 (Uint63.of_Z (Zpos p)))
  end.

(** The whole part of the finite double [(-1)^s * m * 2^e], rounded towards
    minus infinity ([down]) or towards zero. *)
Definition whole (down s : bool) (m : positive) (e : Z) : Z :=
  let n := if s then Zneg m else Zpos m in
  if 0 <=? e then Z.shiftl n e
  else if down then Z.shiftr n (- e)
  else Z.quot n (2 ^ (- e)).

(** [Math.floor] *)
Definition floor (x : float) : float :=
  match Prim2SF x with
  | S754_finite s m e => if 0 <=? e then x else of_Z (whole true s m e)
  | _ => x
  end.

(** [Math.ceil] *)
Definition ceil (x : float) : float :=
  PrimFloat.opp (floor (PrimFloat.opp x)).

(** [Math.min] of two numbers: [NaN] if either is, and [-0] below [+0]. *)
Definition min (a b : float) : float :=
  if PrimFloat.is_nan a || PrimFloat.is_nan b then PrimFloat.nan
  else if PrimFloat.ltb a b then a
  else if PrimFloat.ltb b a then b
  else if PrimFloat.is_zero a && PrimFloat.get_sign a then a
  else b.

(** The conversion of a number to an [unsigned long]: [NaN], the zeros and
    the infinities give 0, any other number its whole part modulo 2^32. *)
Definition ToUint32 (x : float) : Z :=
  match Prim2SF x with
  | S754_finite s m e => whole false s m e mod 4294967296
  | _ => 0
  end.

End Double.

(** The numbers of JS. *)
Definition doubles : Arithmetic :=
  {| number := float;
     ratio := float;
     literal := Double.of_Z;
     to_ratio := fun x => x;
     num_add := PrimFloat.add;
     num_sub := PrimFloat.sub;
     num_lt := PrimFloat.ltb;
     Math_min := Double.min;
     ratio_add := PrimFloat.add;
     ratio_mul := PrimFloat.mul;
     Math_floor := Double.floor;
     Math_ceil := Double.ceil;
     ToUint32 := Double.ToUint32 |}.

(** ** A browser to run the model on

    Modelled from the spec: the collaborators below are not under [src/].
    Colours are packed RGBA numbers with "an explicit transparent
    sentinel" (alpha zero); a painter produces "a raster surface of exactly
    width x height x deviceScale^2 physical pixels", and a target surface,
    "when provided, must be reused"; the cloner's copy "corresponds 1:1 to
    the live element".  Where the spec is silent the browser is followed:
    the colour parser throws on the empty string, which holds no component
    value, and the encoder yields [null] for a canvas without pixels. *)

Module Demo.

Local Open Scope string_scope.
Local Open Scope Z_scope.

Definition red : Color := 0xff0000ff.
Definition blue : Color := 0x0000ffff.
Definition white : Color := 0xffffffff.

Section Any.

Context {num : Arithmetic}.

Definition named_color (_ : Context) (s : string) : Try Color :=
  if String.eqb s EmptyString then
    Throw (ErrorObj "Error parsing CSS component value, unexpected EOF")
  else if String.eqb s "red" then Ok red
  else if String.eqb s "blue" then Ok blue
  else if String.eqb s "white" then Ok white
  else if String.eqb s "transparent" then Ok 0
  else Ok 0x000000ff.

Definition zero_alpha (c : Color) : bool := Z.land 0xff c =? 0.

Definition paint (cfg : RenderConfigurations) : Canvas :=
  let tag := Painted (ToUint32 (Math_floor (rc_y cfg))) in
  match rc_canvas cfg with
  | Some c => mkCanvas (cv_width c) (cv_height c) tag
  | None =>
      let c :=
        set_height
          (set_width createCanvas
             (Math_floor (ratio_mul (to_ratio (rc_width cfg)) (rc_scale cfg))))
          (Math_floor (ratio_mul (to_ratio (rc_height cfg)) (rc_scale cfg))) in
      mkCanvas (cv_width c) (cv_height c) tag
  end.

Definition encode (c : Canvas) (mime : string) (quality : Z) : option Blob :=
  if (cv_width c =? 0) || (cv_height c =? 0)
  then None
  else Some (mkBlob mime (Z.to_nat (cv_height c))).

(** A browser whose windows have the device pixel ratio [dpr]. *)
Definition browser (dpr : ratio) : Host :=
  {| COLORS_TRANSPARENT := 0;
     isTransparent := zero_alpha;
     parseColor := named_color;
     parseBounds := fun _ e =>
       mkBounds (to_ratio (literal 0)) (to_ratio (literal 0))
                (to_ratio (scrollWidth e)) (to_ratio (scrollHeight e));
     parseDocumentSize := fun _ =>
       mkBounds (to_ratio (literal 0)) (to_ratio (literal 0))
                (to_ratio (literal 800)) (to_ratio (literal 600));
     isBodyElement := fun e => Nat.eqb (node_id e) 1;
     isHTMLElement := fun e => Nat.eqb (node_id e) 0;
     parseTree := fun _ e => mkPaintNode white (node_id e);
     clonedReferenceElement := fun _ e _ => Some e;
     toIFrame := fun _ _ _ => Ok tt;
     CanvasRenderer_render := fun cfg _ => Ok (paint cfg);
     ForeignObjectRenderer_render := fun cfg _ => Ok (paint cfg);
     window_devicePixelRatio := dpr;
     getContext2d := true;
     toBlob := encode |}.

(** A window 800 by 600, not scrolled. *)
Definition window_of (dpr : ratio) : Window :=
  mkWindow (literal 800) (literal 600) (literal 0) (literal 0) (Some dpr).

(** A document in that window whose root is transparent and whose body is
    red. *)
Definition page_of (dpr : ratio) : Document :=
  mkDocument (Some (window_of dpr)) (Some (mkNodeRef 0 "transparent"))
             (Some (mkNodeRef 1 "red")).

(** An element 320 wide and [h] tall inside that document. *)
Definition box_of (dpr : ratio) (h : number) : HTMLElement :=
  mkElement 7 (literal 320) h (Some (page_of dpr)).

End Any.

(** The browser of the general theorems: whole pixels, and a device pixel
    ratio of 2. *)
Definition host : Host := browser (inject_Z 2).

Definition view : Window := window_of (inject_Z 2).

Definition page : Document := page_of (inject_Z 2).

(** An element 320 wide and [h] tall inside [page]. *)
Definition box (h : Z) : HTMLElement := box_of (inject_Z 2) h.

Definition world : World unit := mkWorld [] 0%nat tt.

(** A callback that consumes the raster at once. *)
Definition consume : Callback unit := fun _ u => (u, OpReturns None).

(** A callback that returns a promise which is fulfilled. *)
Definition upload : Callback unit := fun _ u => (u, OpReturns (Some Fulfils)).

(** A callback that throws. *)
Definition failing : Callback unit :=
  fun _ u => (u, OpThrows (ErrorObj "disk full")).

(** A callback whose promise never settles. *)
Definition stuck : Callback unit :=
  fun _ u => (u, OpReturns (Some NeverSettles)).

(** The same browser on a display with a device pixel ratio of 1/2. *)
Definition half : Host := browser (1 # 2).

Definition half_box (h : Z) : HTMLElement := box_of (1 # 2) h.

End Demo.

(** The browser of [Demo] with the numbers of JS. *)
Module DemoJS.

Definition host : @Host doubles := Demo.browser (num := doubles) 2%float.

Definition box (h : float) : @HTMLElement doubles :=
  Demo.box_of (num := doubles) 2%float h.

End DemoJS.

(** * The vocabulary of the statements *)

(** ** The phases of a sweep

    A trace is replayed against the order the sweep must keep: a segment
    is rendered, painted, handed to the callback, and only when the
    callback is finished (at once, or after the promise it returned has
    been awaited and fulfilled) is the buffer cleared and released, which
    alone lets the next segment start. *)

Inductive Phase : Type :=
| Idle
| Rendering
| Painting
| Promised (s : Settlement)
| Waiting (s : Settlement)
| Consumed
| Cleared
| Failed (x : Rejection).

Definition advance (p : Phase) (e : Event) : option Phase :=
  match p, e with
  | Idle, EvRender _ _ => Some Rendering
  | Idle, (EvClone _ | EvInsertContainer _ | EvClearRect _ _ | EvRemoveCanvas
          | EvDestroyContainer _ _ | EvLogError _) => Some Idle
  | Rendering, EvPaint _ _ _ (Ok _) => Some Painting
  | Rendering, EvPaint _ _ _ (Throw x) => Some (Failed x)
  | Painting, EvOp _ (OpReturns (Some s)) => Some (Promised s)
  | Painting, EvOp _ (OpReturns None) => Some Consumed
  | Painting, EvOp _ (OpThrows x) => Some (Failed x)
  | Promised s, EvAwait => Some (Waiting s)
  | Waiting Fulfils, EvResume => Some Consumed
  | Consumed, EvClearRect _ _ => Some Cleared
  | Cleared, EvReleaseCanvas => Some Idle
  | _, _ => None
  end.

Fixpoint replay (p : Phase) (evs : list Event) : option Phase :=
  match evs with
  | [] => Some p
  | e :: rest =>
      match advance p e with
      | Some q => replay q rest
      | None => None
      end
  end.

(** What the phase in which a trace ends says about the completion:
    a run that ends between two segments is not suspended; one that ends
    inside a segment ended there because the step failed or, in the waiting
    phase, because the promise was rejected or never settles; no run ends
    in any other phase. *)
Definition explains (p : Phase) (c : Completion unit) : Prop :=
  match p with
  | Idle => c <> Suspended
  | Rendering => exists x, c = Rejected x
  | Failed x => c = Rejected x
  | Waiting (RejectsWith x) => c = Rejected x
  | Waiting NeverSettles => c = Suspended
  | Painting | Promised _ | Waiting Fulfils | Consumed | Cleared => False
  end.

(** [ceil(a / b)] for a positive [b]. *)
Definition ceil_div (a b : Z) : Z := (a + b - 1) / b.

Definition lift_completion {A : Type} (c : Completion A) : Completion unit :=
  match c with
  | Resolved _ => Resolved tt
  | Rejected x => Rejected x
  | Suspended => Suspended
  | OutOfFuel => OutOfFuel
  end.

(** ** The shape of a call of [render], of a segment and of a sweep *)

Section Shapes.

Variable host : Host.
Context {U : Type}.

Inductive RenderShape (y h : option Z) (w : World U) : Run U Canvas -> Prop :=
| RenderAborted (x : Rejection) :
    RenderShape y h w (mkRun [EvRender y h] w (Rejected x))
| RenderPaintFailed (p : Painter) (cfg : RenderConfigurations)
    (root : option PaintNode) (x : Rejection) :
    RenderShape y h w
      (mkRun [EvRender y h; EvPaint p cfg root (Throw x)] w (Rejected x))
| RenderPainted (p : Painter) (cfg : RenderConfigurations)
    (root : option PaintNode) (c : Canvas) :
    RenderShape y h w
      (mkRun [EvRender y h; EvPaint p cfg root (Ok c)] w (Resolved c)).

Variable segmentHeight : Z.
Variable op : Callback U.
Variable totalHeight : Z.

(** The height of the segment that starts at [curTop]. *)
Definition segment_height (curTop : Z) : Z :=
  Z.min (totalHeight - curTop) segmentHeight.

(** The events of waiting for what the callback returned. *)
Definition awaited (t : option Settlement) : list Event :=
  match t with
  | Some _ => [EvAwait; EvResume]
  | None => []
  end.

Definition released : Canvas := mkCanvas 1 1 Blank.

Inductive SegmentShape (curTop : Z) (w : World U)
    : Run U (Z * Canvas) -> Prop :=
| SegmentNoContext :
    getContext2d host = false ->
    SegmentShape curTop w (mkRun [] w (Rejected ctx_is_null))
| SegmentAborted (x : Rejection) :
    SegmentShape curTop w
      (mkRun [EvRender (Some curTop) (Some (segment_height curTop))] w
             (Rejected x))
| SegmentPaintFailed p cfg root (x : Rejection) :
    SegmentShape curTop w
      (mkRun [EvRender (Some curTop) (Some (segment_height curTop));
              EvPaint p cfg root (Throw x)] w (Rejected x))
| SegmentOpThrew p cfg root (c : Canvas) (u : U) (x : Rejection) :
    op c (user w) = (u, OpThrows x) ->
    SegmentShape curTop w
      (mkRun [EvRender (Some curTop) (Some (segment_height curTop));
              EvPaint p cfg root (Ok c); EvOp c (OpThrows x)] (set_user w u)
             (Rejected x))
| SegmentOpRejected p cfg root (c : Canvas) (u : U) (x : Rejection) :
    op c (user w) = (u, OpReturns (Some (RejectsWith x))) ->
    SegmentShape curTop w
      (mkRun [EvRender (Some curTop) (Some (segment_height curTop));
              EvPaint p cfg root (Ok c);
              EvOp c (OpReturns (Some (RejectsWith x)));
              EvAwait] (set_user w u) (Rejected x))
| SegmentOpPending p cfg root (c : Canvas) (u : U) :
    op c (user w) = (u, OpReturns (Some NeverSettles)) ->
    SegmentShape curTop w
      (mkRun [EvRender (Some curTop) (Some (segment_height curTop));
              EvPaint p cfg root (Ok c);
              EvOp c (OpReturns (Some NeverSettles));
              EvAwait] (set_user w u) Suspended)
| SegmentDone p cfg root (c : Canvas) (u : U) (t : option Settlement) :
    getContext2d host = true ->
    op c (user w) = (u, OpReturns t) ->
    t = None \/ t = Some Fulfils ->
    SegmentShape curTop w
      (mkRun ([EvRender (Some curTop) (Some (segment_height curTop));
               EvPaint p cfg root (Ok c); EvOp c (OpReturns t)]
              ++ awaited t
              ++ [EvClearRect (cv_width c) (cv_height c);
                  EvReleaseCanvas; EvClearRect 1 1])
             (set_user w u)
             (Resolved (segment_height curTop, released))).

(** A sweep from [curTop] is a chain of completed segments that ends
    when the loop test fails, when a segment does not complete, or when
    the fuel is spent. *)
Inductive SweepRun : Z -> World U -> Run U unit -> Prop :=
| SweepExit (curTop : Z) (w : World U) :
    totalHeight <= curTop ->
    SweepRun curTop w (mkRun [] w (Resolved tt))
| SweepStarved (curTop : Z) (w : World U) :
    SweepRun curTop w (mkRun [] w OutOfFuel)
| SweepRejected (curTop : Z) (w w' : World U) (evs : list Event)
    (x : Rejection) :
    curTop < totalHeight ->
    SegmentShape curTop w (mkRun evs w' (Rejected x)) ->
    SweepRun curTop w (mkRun evs w' (Rejected x))
| SweepSuspended (curTop : Z) (w w' : World U) (evs : list Event) :
    curTop < totalHeight ->
    SegmentShape curTop w (mkRun evs w' Suspended) ->
    SweepRun curTop w (mkRun evs w' Suspended)
| SweepStep (curTop : Z) (w w' : World U) (evs : list Event) (cv : Canvas)
    (rest : Run U unit) :
    curTop < totalHeight ->
    SegmentShape curTop w
      (mkRun evs w' (Resolved (segment_height curTop, cv))) ->
    SweepRun (curTop + segment_height curTop) w' rest ->
    SweepRun curTop w
      (mkRun (evs ++ events rest) (final rest) (completion rest)).

(** The recurrence of the windows: the first starts at [curTop], each
    has the height [min(segmentHeight, totalHeight - top)], and the next
    starts where it ends. *)
Fixpoint chained (curTop : Z) (ws : list (Z * Z)) : Prop :=
  match ws with
  | [] => True
  | (top, height) :: rest =>
      top = curTop /\
      height = Z.min segmentHeight (totalHeight - top) /\
      chained (top + height) rest
  end.

Definition iterations (curTop : Z) : nat :=
  Z.to_nat (ceil_div (totalHeight - curTop) segmentHeight).

End Shapes.

(** ** The shape of the entry points *)

Section EntryShapes.

Variable host : Host.
Context {U : Type}.

(** The world once the container of the clone is in the document. *)
Definition entered (w : World U) : World U :=
  mkWorld (fresh w :: containers w) (S (fresh w)) (user w).

(** Why [prepare] turns an argument down. *)
Definition Unprepared (element : Arg) : Prop :=
  as_element element = None \/
  exists e, element = ArgElement e /\
    (ownerDocument e = None \/
     (exists d, ownerDocument e = Some d /\ defaultView d = None) \/
     (exists context cc, clonedReferenceElement host context e cc = None) \/
     (exists d b x, toIFrame host e d b = Throw x)).

Inductive PrepareShape (element : Arg) (w : World U)
    : Run U (Context * HTMLElement * Container) -> Prop :=
| PrepareRefused (x : Rejection) :
    Unprepared element ->
    PrepareShape element w (mkRun [] w (Rejected x))
| PrepareLost (e : HTMLElement) (x : Rejection) :
    element = ArgElement e ->
    Unprepared element ->
    PrepareShape element w (mkRun [EvClone (node_id e)] w (Rejected x))
| PrepareReady (e : HTMLElement) (d : Document) (v : Window)
    (context : Context) (cc : CloneConfigurations) (ce : HTMLElement) :
    element = ArgElement e ->
    ownerDocument e = Some d ->
    defaultView d = Some v ->
    clonedReferenceElement host context e cc = Some ce ->
    PrepareShape element w
      (mkRun [EvClone (node_id e); EvInsertContainer (fresh w)] (entered w)
             (Resolved (context, ce, fresh w))).

(** How a segmented capture ends, given the events before the sweep,
    the container and the run of the sweep. *)
Definition conclude (pre : list Event) (c : Container) (sw : Run U unit)
    : Run U unit :=
  match completion sw with
  | Resolved _ =>
      mkRun (pre ++ events sw ++ [EvRemoveCanvas; EvDestroyContainer c true])
            (mkWorld (filter (fun x => negb (Nat.eqb c x))
                             (containers (final sw)))
                     (fresh (final sw)) (user (final sw)))
            (Resolved tt)
  | Rejected x => mkRun (pre ++ events sw) (final sw) (Rejected x)
  | Suspended => mkRun (pre ++ events sw) (final sw) Suspended
  | OutOfFuel => mkRun (pre ++ events sw) (final sw) OutOfFuel
  end.

Inductive SegmentedShape (fuel : nat) (ele : Arg) (opts : Options)
    (segmentHeight : Z) (op : Callback U) (w : World U)
    : Run U unit -> Prop :=
| SegmentedRefused (evs : list Event) (x : Rejection) :
    Unprepared ele ->
    evs = [] \/ (exists e, ele = ArgElement e /\ evs = [EvClone (node_id e)]) ->
    SegmentedShape fuel ele opts segmentHeight op w (mkRun evs w (Rejected x))
| SegmentedNoContext (e : HTMLElement) :
    ele = ArgElement e ->
    getContext2d host = false ->
    SegmentedShape fuel ele opts segmentHeight op w
      (mkRun [EvClone (node_id e); EvInsertContainer (fresh w)] (entered w)
             (Rejected ctx_is_null))
| SegmentedSwept (e : HTMLElement) (d : Document) (v : Window)
    (context : Context) (cc : CloneConfigurations) (ce : HTMLElement)
    (canvas : Canvas) :
    ele = ArgElement e ->
    ownerDocument e = Some d ->
    defaultView d = Some v ->
    clonedReferenceElement host context e cc = Some ce ->
    getContext2d host = true ->
    SegmentedShape fuel ele opts segmentHeight op w
      (conclude [EvClone (node_id e); EvInsertContainer (fresh w)] (fresh w)
         (sweep host context e ce opts segmentHeight op
                (window_devicePixelRatio host) (scrollWidth e)
                (scrollHeight e) fuel 0 canvas (entered w))).

(** The element is in a document that has a window, the cloner finds the
    clone and installs it, a 2D context can be had, the colours that the
    background of the clone is resolved from parse (those of its document
    and the override of the options), and both painters paint. *)
Record Paintable (e : HTMLElement) (option_ : option Options) : Prop := {
  paintable_window :
    exists d v, ownerDocument e = Some d /\ defaultView d = Some v;
  paintable_clone :
    forall context cc, exists ce d,
      clonedReferenceElement host context e cc = Some ce /\
      ownerDocument ce = Some d;
  paintable_iframe : forall d b, toIFrame host e d b = Ok tt;
  paintable_context : getContext2d host = true;
  paintable_background :
    forall context cc ce,
      clonedReferenceElement host context e cc = Some ce ->
      exists c,
        parseBackgroundColor host context ce
          (opt_backgroundColor (option_ ?? emptyOptions)) = Ok c;
  paintable_software :
    forall cfg root, exists c, CanvasRenderer_render host cfg root = Ok c;
  paintable_foreign :
    forall cfg ce, exists c, ForeignObjectRenderer_render host cfg ce = Ok c
}.

(** The callback neither throws nor returns a promise that is rejected
    or never settles. *)
Definition Completes (op : Callback U) : Prop :=
  forall c u, exists u' t,
    op c u = (u', OpReturns t) /\ (t = None \/ t = Some Fulfils).

Record Nominal (e : HTMLElement) (option_ : option Options)
    (op : Callback U) : Prop := {
  nominal_host : Paintable e option_;
  nominal_op : Completes op
}.

End EntryShapes.

Definition to_blob_failed : Rejection := ErrorObj "to blob failed!".

(** ** Pages *)

Module Pages.

Local Open Scope string_scope.

Definition context : Context :=
  mkContext true false 15000 None false
            (mkBounds (inject_Z 0) (inject_Z 0) (inject_Z 800) (inject_Z 600)).

(** A document whose root is blue and whose body is red. *)
Definition blue_page : Document :=
  mkDocument (Some Demo.view) (Some (mkNodeRef 0 "blue"))
             (Some (mkNodeRef 1 "red")).

(** The document element of a document. *)
Definition root_of (d : Document) : HTMLElement := mkElement 0 800 600 (Some d).

End Pages.

Definition keepContainer : Options :=
  mkOptions None None None None None None None None None Unset
            None (Some false) None None None None None None.

(** ** More to read from a trace *)

(** A window that lies inside the element, is not empty and is no taller
    than a segment. *)
Definition inside (segmentHeight totalHeight : Z) (p : Z * Z) : Prop :=
  0 <= fst p /\ fst p < totalHeight /\
  0 < snd p <= segmentHeight /\ fst p + snd p <= totalHeight.

(** The state of the caller once the callback has been given the rasters
    [cs], one after the other. *)
Definition fed {U : Type} (op : Callback U) (u : U) (cs : list Canvas) : U :=
  fold_left (fun u c => fst (op c u)) cs u.

(** Two records of options that agree on everything a segmented capture
    reads: all fields but [canvas], [y], [width] and [height], which every
    segment overwrites, and [removeContainer]. *)
Definition same_for_sweep (a b : Options) : Prop :=
  opt_allowTaint a = opt_allowTaint b /\
  opt_imageTimeout a = opt_imageTimeout b /\
  opt_proxy a = opt_proxy b /\
  opt_useCORS a = opt_useCORS b /\
  opt_logging a = opt_logging b /\
  opt_windowWidth a = opt_windowWidth b /\
  opt_windowHeight a = opt_windowHeight b /\
  opt_scrollX a = opt_scrollX b /\
  opt_scrollY a = opt_scrollY b /\
  opt_backgroundColor a = opt_backgroundColor b /\
  opt_foreignObjectRendering a = opt_foreignObjectRendering b /\
  opt_scale a = opt_scale b /\
  opt_x a = opt_x b.

(** A painter call in which the colour of the page is not also the colour
    of the root of the paint tree, unless it is the transparent colour. *)
Definition paints_background_once (host : Host)
    (p : Painter * RenderConfigurations * option PaintNode) : Prop :=
  match snd p with
  | Some root =>
      rc_backgroundColor (snd (fst p)) = styles_backgroundColor root ->
      styles_backgroundColor root = COLORS_TRANSPARENT host
  | None => True
  end.

(** * What a run looks like *)

(** The operations of [integers], unfolded to those of [Z] and [Q]. *)
Ltac whole_numbers :=
  cbn [number ratio literal to_ratio num_add num_sub num_lt Math_min
       ratio_add ratio_mul Math_floor Math_ceil ToUint32 integers] in *.


(** ** Traces *)

Lemma inserted_app (a b : list Event) :
  inserted (a ++ b) = inserted a ++ inserted b.
Proof.
  induction a as [|e a IH]; simpl; [reflexivity|].
  destruct e; try assumption.
  simpl. now rewrite IH.
Qed.

Lemma windows_app (a b : list Event) :
  windows (a ++ b) = windows a ++ windows b.
Proof.
  induction a as [|e a IH]; simpl; [reflexivity|].
  destruct e; try assumption.
  destruct y; try assumption.
  destruct height; try assumption.
  simpl. now rewrite IH.
Qed.

Lemma rasters_app (a b : list Event) :
  rasters (a ++ b) = rasters a ++ rasters b.
Proof.
  induction a as [|e a IH]; simpl; [reflexivity|].
  destruct e; try assumption.
  simpl. now rewrite IH.
Qed.

(** ** Phases *)

Lemma replay_app (p : Phase) (a b : list Event) :
  replay p (a ++ b) =
  match replay p a with
  | Some q => replay q b
  | None => None
  end.
Proof.
  revert p; induction a as [|e a IH]; intros p; simpl; [reflexivity|].
  destruct (advance p e); [apply IH|reflexivity].
Qed.

Lemma explains_resolved (p : Phase) :
  explains p (Resolved tt) -> p = Idle.
Proof.
  destruct p as [| | |s|[|x|]| | |x]; simpl; try tauto; try discriminate.
  now intros [x Hx].
Qed.

Lemma explains_suspended (p : Phase) :
  explains p Suspended -> p = Waiting NeverSettles.
Proof.
  destruct p as [| | |s|[|x|]| | |x]; simpl; try tauto; try discriminate.
  now intros [x Hx].
Qed.

Lemma failed_is_final (x : Rejection) (post : list Event) (q : Phase) :
  replay (Failed x) post = Some q -> post = [] /\ q = Failed x.
Proof.
  destruct post as [|e post]; simpl; [now intros [= <-]|].
  destruct e; discriminate.
Qed.

Lemma replay_split (p q : Phase) (a b : list Event) (e : Event) :
  replay p (a ++ e :: b) = Some q ->
  exists p1 p2,
    replay p a = Some p1 /\ advance p1 e = Some p2 /\ replay p2 b = Some q.
Proof.
  rewrite replay_app. destruct (replay p a) as [p1|]; [|discriminate].
  simpl. destruct (advance p1 e) as [p2|] eqn:Ha; [|discriminate].
  intros H. now exists p1, p2.
Qed.

Lemma render_starts_idle (p q : Phase) (y h : option Z) :
  advance p (EvRender y h) = Some q -> p = Idle.
Proof. destruct p; simpl; try discriminate; try destruct s; auto; discriminate. Qed.

Lemma promise_is_awaited (p q : Phase) (c : Canvas) (s : Settlement) :
  advance p (EvOp c (OpReturns (Some s))) = Some q -> q = Promised s.
Proof.
  destruct p; simpl; try discriminate; try (destruct s0; discriminate).
  now intros [= <-].
Qed.

Lemma failed_paint_phase (p q : Phase) (k : Painter)
    (cfg : RenderConfigurations) (root : option PaintNode) (x : Rejection) :
  advance p (EvPaint k cfg root (Throw x)) = Some q -> q = Failed x.
Proof.
  destruct p; simpl; try discriminate; try (destruct s; discriminate).
  now intros [= <-].
Qed.

Lemma thrown_op_phase (p q : Phase) (c : Canvas) (x : Rejection) :
  advance p (EvOp c (OpThrows x)) = Some q -> q = Failed x.
Proof.
  destruct p; simpl; try discriminate; try (destruct s; discriminate).
  now intros [= <-].
Qed.

Lemma stops_at_failure (evs pre post : list Event) (e : Event) (p : Phase)
    (c : Completion unit) (x : Rejection) :
  replay Idle evs = Some p ->
  explains p c ->
  evs = pre ++ e :: post ->
  (forall p1 p2, advance p1 e = Some p2 -> p2 = Failed x) ->
  post = [] /\ c = Rejected x.
Proof.
  intros Hp He E Hfail. rewrite E in Hp.
  destruct (replay_split _ _ _ _ _ Hp) as (p1 & p2 & _ & Ha & Hpost).
  rewrite (Hfail _ _ Ha) in Hpost.
  destruct (failed_is_final _ _ _ Hpost) as [-> ->]. auto.
Qed.

Lemma stops_at_rejection (evs pre post : list Event) (raster : Canvas)
    (p : Phase) (c : Completion unit) (x : Rejection) :
  replay Idle evs = Some p ->
  explains p c ->
  evs = pre ++ EvOp raster (OpReturns (Some (RejectsWith x))) :: post ->
  post = [EvAwait] /\ c = Rejected x.
Proof.
  intros Hp He E. rewrite E in Hp.
  destruct (replay_split _ _ _ _ _ Hp) as (p1 & p2 & _ & Ha & Hpost).
  rewrite (promise_is_awaited _ _ _ _ Ha) in Hpost.
  destruct post as [|e1 [|e2 post]]; simpl in Hpost.
  - injection Hpost as <-. destruct He.
  - destruct e1; try discriminate. injection Hpost as <-. auto.
  - destruct e1; try discriminate; destruct e2; discriminate.
Qed.

Lemma after_promise (s : Settlement) (q : Phase) (post : list Event) :
  replay (Promised s) post = Some q ->
  post = [] \/ post = [EvAwait] \/
  exists rest, post = EvAwait :: EvResume :: rest /\ s = Fulfils.
Proof.
  destruct post as [|e1 post]; [auto|]. simpl.
  destruct e1; try discriminate. simpl.
  destruct post as [|e2 post]; [auto|]. simpl.
  destruct s; destruct e2; try discriminate. eauto.
Qed.

(** ** Rounding up *)

Lemma ceil_div_spec (a b : Z) :
  0 < b -> (ceil_div a b - 1) * b < a <= ceil_div a b * b.
Proof.
  intros Hb. unfold ceil_div.
  pose proof (Z.div_mod (a + b - 1) b ltac:(lia)) as Hdm.
  pose proof (Z.mod_pos_bound (a + b - 1) b Hb) as Hm.
  nia.
Qed.

Lemma ceil_div_unique (a b n : Z) :
  0 < b -> (n - 1) * b < a <= n * b -> ceil_div a b = n.
Proof.
  intros Hb Hn. pose proof (ceil_div_spec a b Hb) as Hc. nia.
Qed.

(** ** Runs of [bind] *)

Lemma bind_resolved {U A B : Type} (m : Async U A) (f : A -> Async U B)
    (w w' : World U) (evs : list Event) (a : A) :
  m w = mkRun evs w' (Resolved a) ->
  bind m f w =
  mkRun (evs ++ events (f a w')) (final (f a w')) (completion (f a w')).
Proof. intros H. unfold bind. now rewrite H. Qed.

Lemma bind_rejected {U A B : Type} (m : Async U A) (f : A -> Async U B)
    (w w' : World U) (evs : list Event) (x : Rejection) :
  m w = mkRun evs w' (Rejected x) ->
  bind m f w = mkRun evs w' (Rejected x).
Proof. intros H. unfold bind. now rewrite H. Qed.

Lemma bind_suspended {U A B : Type} (m : Async U A) (f : A -> Async U B)
    (w w' : World U) (evs : list Event) :
  m w = mkRun evs w' Suspended ->
  bind m f w = mkRun evs w' Suspended.
Proof. intros H. unfold bind. now rewrite H. Qed.

Lemma run_eta {U A : Type} (r : Run U A) :
  r = mkRun (events r) (final r) (completion r).
Proof. now destruct r. Qed.

(** ** The shape of one call of [render] and of one segment *)

Section Runs.

Variable host : Host.
Context {U : Type}.

Lemma render_shape (context : Context) (e ce : HTMLElement) (opts : Options)
    (w : World U) :
  RenderShape (opt_y opts) (opt_height opts) w (render host context e ce opts w).
Proof.
  unfold render, bind, emit; simpl.
  destruct (ownerDocument e) as [d|]; [|constructor].
  destruct (defaultView d) as [v|]; [|constructor].
  destruct (isBodyElement host ce || isHTMLElement host ce);
    [destruct (ownerDocument ce) eqn:Hce; [|constructor]|]; simpl;
    (destruct (parseBackgroundColor host context ce (opt_backgroundColor opts));
     simpl; [|constructor]);
    (destruct (opt_foreignObjectRendering opts ?? false); simpl;
     [destruct (ForeignObjectRenderer_render host _ ce)
     |destruct (CanvasRenderer_render host _ _)]; simpl; constructor).
Qed.

Variable context : Context.
Variable ele clonedElement : HTMLElement.
Variable option_ : Options.
Variable segmentHeight : Z.
Variable op : Callback U.
Variable scale : Q.
Variable width totalHeight : Z.

Local Abbreviation Segment := (SegmentShape host segmentHeight op totalHeight).
Local Abbreviation Sweep := (SweepRun host segmentHeight op totalHeight).
Local Abbreviation height_at := (segment_height segmentHeight totalHeight).
Local Abbreviation linked := (chained segmentHeight totalHeight).
Local Abbreviation passes := (iterations segmentHeight totalHeight).

Lemma segment_shape (curTop : Z) (canvas : Canvas) (w : World U) :
  Segment curTop w
    (segment host context ele clonedElement option_ segmentHeight op scale
             width totalHeight curTop canvas w).
Proof.
  unfold segment. fold (height_at curTop).
  destruct (getContext2d host) eqn:Hctx; [|now constructor].
  match goal with
  | |- context [render host context ele clonedElement ?o] =>
      pose proof (render_shape context ele clonedElement o w) as Hr;
      remember (render host context ele clonedElement o w) as r eqn:Er;
      symmetry in Er; simpl in Hr
  end.
  destruct Hr.
  - rewrite (bind_rejected _ _ _ _ _ _ Er). constructor.
  - rewrite (bind_rejected _ _ _ _ _ _ Er). constructor.
  - rewrite (bind_resolved _ _ _ _ _ _ Er).
    unfold bind, invoke, releaseCanvas, emit, await, ret. rewrite Hctx.
    destruct (op c (user w)) as [u r] eqn:Hop.
    destruct r as [x|[[|x|]|]]; simpl.
    + now apply SegmentOpThrew.
    + now apply SegmentDone with (t := Some Fulfils); auto.
    + now apply SegmentOpRejected.
    + now apply SegmentOpPending.
    + now apply SegmentDone with (t := None); auto.
Qed.

(** ** The shape of a sweep *)

Local Abbreviation the_sweep :=
  (sweep host context ele clonedElement option_ segmentHeight op scale
         width totalHeight).

Lemma sweep_run (fuel : nat) :
  forall (curTop : Z) (canvas : Canvas) (w : World U),
    Sweep curTop w (the_sweep fuel curTop canvas w).
Proof.
  induction fuel as [|fuel IH]; intros curTop canvas w; simpl.
  - apply SweepStarved.
  - destruct (curTop <? totalHeight) eqn:Hlt.
    + apply Z.ltb_lt in Hlt.
      pose proof (segment_shape curTop canvas w) as Hs.
      remember (segment host context ele clonedElement option_ segmentHeight
                        op scale width totalHeight curTop canvas w)
        as r eqn:Er.
      symmetry in Er. destruct r as [evs w' comp].
      destruct comp as [[h cv]|x| |].
      * rewrite (bind_resolved _ _ _ _ _ _ Er).
        assert (h = height_at curTop) as -> by (inversion Hs; reflexivity).
        apply SweepStep with (w' := w') (cv := cv)
          (rest := the_sweep fuel (curTop + height_at curTop) cv w');
          [assumption|assumption|apply IH].
      * rewrite (bind_rejected _ _ _ _ _ _ Er). now apply SweepRejected.
      * rewrite (bind_suspended _ _ _ _ _ Er). now apply SweepSuspended.
      * inversion Hs.
    + apply Z.ltb_ge in Hlt. now apply SweepExit.
Qed.

(** *** What one segment leaves in the trace and in the world *)

Lemma segment_keeps_document (curTop : Z) (w : World U)
    (r : Run U (Z * Canvas)) :
  Segment curTop w r ->
  containers (final r) = containers w /\ fresh (final r) = fresh w.
Proof. intros H; destruct H; simpl; auto. Qed.

Lemma segment_no_cleanup (curTop : Z) (w : World U) (r : Run U (Z * Canvas)) :
  Segment curTop w r -> existsb is_cleanup (events r) = false.
Proof.
  intros H; destruct H; simpl; try reflexivity.
  destruct t as [s|]; reflexivity.
Qed.

Lemma segment_windows (curTop : Z) (w : World U) (r : Run U (Z * Canvas)) :
  Segment curTop w r ->
  windows (events r) = [(curTop, height_at curTop)] \/
  (windows (events r) = [] /\ completion r = Rejected ctx_is_null).
Proof.
  intros H; destruct H; simpl; auto.
  destruct t as [s|]; auto.
Qed.

Lemma segment_done_windows (curTop : Z) (w w' : World U) (evs : list Event)
    (v : Z * Canvas) :
  Segment curTop w (mkRun evs w' (Resolved v)) ->
  windows evs = [(curTop, height_at curTop)] /\
  exists c, rasters evs = [c].
Proof.
  intros H; inversion H; subst.
  destruct t as [s|]; simpl; eauto.
Qed.

(** *** What a sweep leaves in the trace and in the world *)

Lemma sweep_keeps_document (curTop : Z) (w : World U) (r : Run U unit) :
  Sweep curTop w r ->
  containers (final r) = containers w /\ fresh (final r) = fresh w.
Proof.
  induction 1 as [ | |? ? ? ? ? ? Hs|? ? ? ? ? Hs|? ? ? ? ? ? ? Hs ? IH];
    simpl; auto.
  - apply (segment_keeps_document _ _ _ Hs).
  - apply (segment_keeps_document _ _ _ Hs).
  - destruct (segment_keeps_document _ _ _ Hs) as [Hc Hf]; simpl in *.
    destruct IH as [IHc IHf]. split; congruence.
Qed.

Lemma sweep_no_cleanup (curTop : Z) (w : World U) (r : Run U unit) :
  Sweep curTop w r -> existsb is_cleanup (events r) = false.
Proof.
  induction 1 as [ | |? ? ? ? ? ? Hs|? ? ? ? ? Hs|? ? ? ? ? ? ? Hs ? IH];
    simpl; auto.
  - apply (segment_no_cleanup _ _ _ Hs).
  - apply (segment_no_cleanup _ _ _ Hs).
  - pose proof (segment_no_cleanup _ _ _ Hs) as E; simpl in E.
    now rewrite existsb_app, IH, E.
Qed.

Lemma segment_no_insert (curTop : Z) (w : World U) (r : Run U (Z * Canvas)) :
  Segment curTop w r -> inserted (events r) = [].
Proof.
  intros H; destruct H; simpl; try reflexivity.
  destruct t as [s|]; reflexivity.
Qed.

Lemma sweep_no_insert (curTop : Z) (w : World U) (r : Run U unit) :
  Sweep curTop w r -> inserted (events r) = [].
Proof.
  induction 1 as [ | |? ? ? ? ? ? Hs|? ? ? ? ? Hs|? ? ? ? ? ? ? Hs ? IH];
    simpl; auto.
  - apply (segment_no_insert _ _ _ Hs).
  - apply (segment_no_insert _ _ _ Hs).
  - pose proof (segment_no_insert _ _ _ Hs) as E; simpl in E.
    now rewrite inserted_app, IH, E.
Qed.

Lemma sweep_chained (curTop : Z) (w : World U) (r : Run U unit) :
  Sweep curTop w r -> linked curTop (windows (events r)).
Proof.
  induction 1 as [ | |? ? ? ? ? ? Hs|? ? ? ? ? Hs|? ? ? ? ? ? ? Hs ? IH];
    simpl; auto.
  - destruct (segment_windows _ _ _ Hs) as [E|[E _]]; simpl in E; rewrite E;
      simpl; auto.
    repeat split; apply Z.min_comm.
  - destruct (segment_windows _ _ _ Hs) as [E|[E _]]; simpl in E; rewrite E;
      simpl; auto.
    repeat split; apply Z.min_comm.
  - destruct (segment_done_windows _ _ _ _ _ Hs) as [E _].
    rewrite windows_app, E. simpl.
    repeat split; [apply Z.min_comm|exact IH].
Qed.


Lemma sweep_backwards (curTop : Z) (w : World U) (r : Run U unit) :
  Sweep curTop w r ->
  segmentHeight <= 0 ->
  curTop < totalHeight ->
  Forall (fun p => fst p <= curTop /\ snd p <= 0) (windows (events r)).
Proof.
  induction 1 as [ | |? ? ? ? ? ? Hs|? ? ? ? ? Hs|? ? ? ? ? ? ? Hs Hrest IH];
    simpl; intros Hseg Hlt; try constructor.
  - destruct (segment_windows _ _ _ Hs) as [E|[E _]]; simpl in E; rewrite E;
      repeat constructor; simpl; unfold segment_height; lia.
  - destruct (segment_windows _ _ _ Hs) as [E|[E _]]; simpl in E; rewrite E;
      repeat constructor; simpl; unfold segment_height; lia.
  - destruct (segment_done_windows _ _ _ _ _ Hs) as [E _].
    rewrite windows_app, E. simpl.
    assert (Hh : height_at curTop <= 0)
      by (unfold segment_height; lia).
    constructor; [simpl; lia|].
    refine (Forall_impl _ _ (IH Hseg ltac:(lia))).
    intros [t h]; simpl; lia.
Qed.

Lemma segment_phases (curTop : Z) (w : World U) (r : Run U (Z * Canvas)) :
  Segment curTop w r ->
  exists p, replay Idle (events r) = Some p /\
            explains p (lift_completion (completion r)).
Proof.
  intros H; destruct H; simpl;
    try match goal with
        | Ht : _ = None \/ _ = Some Fulfils |- _ => destruct Ht; subst; simpl
        end;
    (eexists; split; [reflexivity|]; simpl; eauto; discriminate).
Qed.

Lemma sweep_phases (curTop : Z) (w : World U) (r : Run U unit) :
  Sweep curTop w r ->
  exists p, replay Idle (events r) = Some p /\ explains p (completion r).
Proof.
  induction 1 as [ | |? ? ? ? ? ? Hs|? ? ? ? ? Hs|? ? ? ? ? ? ? Hs ? IH];
    simpl.
  - exists Idle; split; [reflexivity|discriminate].
  - exists Idle; split; [reflexivity|discriminate].
  - apply (segment_phases _ _ _ Hs).
  - apply (segment_phases _ _ _ Hs).
  - destruct (segment_phases _ _ _ Hs) as (p & Hp & He); simpl in *.
    rewrite (explains_resolved _ He) in Hp.
    destruct IH as (q & Hq & Hqe).
    exists q. now rewrite replay_app, Hp.
Qed.

Lemma sweep_empty (fuel : nat) (curTop : Z) (canvas : Canvas) (w : World U) :
  totalHeight <= curTop ->
  the_sweep (S fuel) curTop canvas w = mkRun [] w (Resolved tt).
Proof.
  intros Hge. simpl.
  destruct (curTop <? totalHeight) eqn:Hlt; [|reflexivity].
  apply Z.ltb_lt in Hlt. lia.
Qed.

(** *** Sweeps in which nothing fails *)

Lemma iterations_done (curTop : Z) :
  0 < segmentHeight -> totalHeight <= curTop -> passes curTop = 0%nat.
Proof.
  intros Hs Hge. unfold iterations.
  pose proof (ceil_div_spec (totalHeight - curTop) segmentHeight Hs).
  assert (ceil_div (totalHeight - curTop) segmentHeight <= 0) by nia. lia.
Qed.

Lemma ceil_div_step (total cur seg : Z) :
  0 < seg -> cur < total ->
  ceil_div (total - cur) seg =
  Z.succ (ceil_div (total - (cur + Z.min (total - cur) seg)) seg) /\
  0 <= ceil_div (total - (cur + Z.min (total - cur) seg)) seg.
Proof.
  intros Hs Hlt.
  pose proof (ceil_div_spec (total - (cur + Z.min (total - cur) seg)) seg Hs)
    as Hc.
  remember (ceil_div (total - (cur + Z.min (total - cur) seg)) seg) as c
    eqn:Ec.
  clear Ec. split.
  - apply ceil_div_unique; [assumption|].
    destruct (Z.min_spec (total - cur) seg) as [[? Hm]|[? Hm]];
      rewrite Hm in *.
    + assert (c = 0) by nia. subst c. lia.
    + nia.
  - destruct (Z.min_spec (total - cur) seg) as [[? Hm]|[? Hm]];
      rewrite Hm in *; nia.
Qed.

Lemma iterations_step (curTop : Z) :
  0 < segmentHeight -> curTop < totalHeight ->
  passes curTop = S (passes (curTop + height_at curTop)).
Proof.
  intros Hs Hlt. unfold iterations, segment_height.
  destruct (ceil_div_step totalHeight curTop segmentHeight Hs Hlt) as [E Hp].
  rewrite E. now apply Z2Nat.inj_succ.
Qed.

Section Settling.

Hypothesis context_available : getContext2d host = true.

Hypothesis render_succeeds :
  forall (o : Options) (w : World U),
    opt_backgroundColor o = opt_backgroundColor option_ ->
    exists c, completion (render host context ele clonedElement o w)
              = Resolved c.

(** The canvases on which the callback is known to complete. *)
Variable good : Canvas -> Prop.

Hypothesis op_completes :
  forall (c : Canvas) (u : U),
    good c ->
    exists u' t, op c u = (u', OpReturns t) /\ (t = None \/ t = Some Fulfils).

Lemma segment_settles (curTop : Z) (canvas : Canvas) (w : World U) :
  let r := segment host context ele clonedElement option_ segmentHeight
                   op scale width totalHeight curTop canvas w in
  (forall c, In c (rasters (events r)) -> good c) ->
  completion r = Resolved (height_at curTop, released).
Proof.
  intros r. subst r.
  unfold segment. fold (height_at curTop). rewrite context_available.
  match goal with
  | |- context [render host context ele clonedElement ?o] =>
      destruct (render_succeeds o w eq_refl) as [c Hc];
      pose proof (render_shape context ele clonedElement o w) as Hr;
      remember (render host context ele clonedElement o w) as r eqn:Er;
      symmetry in Er; simpl in Hr
  end.
  destruct Hr; simpl in Hc; try discriminate.
  rewrite (bind_resolved _ _ _ _ _ _ Er).
  unfold bind, invoke, releaseCanvas, emit, await, ret.
  rewrite context_available.
  destruct (op c0 (user w)) as [u did] eqn:Hop.
  intros Hgood.
  assert (Hc0 : good c0).
  { apply Hgood. destruct did as [x|[[|x|]|]]; simpl; auto. }
  destruct (op_completes c0 (user w) Hc0) as (u' & t & E & Ht).
  rewrite E in Hop. injection Hop as <- <-.
  destruct Ht; subst t; reflexivity.
Qed.

(** With a positive segment height the sweep ends, after one test of the
    loop condition more than it has segments. *)
Lemma sweep_settles (fuel : nat) :
  0 < segmentHeight ->
  forall (curTop : Z) (canvas : Canvas) (w : World U),
    (passes curTop < fuel)%nat ->
    let r := the_sweep fuel curTop canvas w in
    (forall c, In c (rasters (events r)) -> good c) ->
    completion r = Resolved tt /\
    List.length (windows (events r)) = passes curTop /\
    List.length (rasters (events r)) = passes curTop.
Proof.
  intros Hseg. induction fuel as [|fuel IH]; intros curTop canvas w Hn r;
    [lia|]. subst r. simpl.
  destruct (curTop <? totalHeight) eqn:Hlt.
  - apply Z.ltb_lt in Hlt. intros Hgood.
    pose proof (segment_settles curTop canvas w) as Hc.
    pose proof (segment_shape curTop canvas w) as Hs.
    remember (segment host context ele clonedElement option_ segmentHeight
                      op scale width totalHeight curTop canvas w)
      as r eqn:Er.
    symmetry in Er. destruct r as [evs w' comp]. simpl in Hc.
    assert (Hevs : forall c, In c (rasters evs) -> good c).
    { intros c Hin. apply Hgood. unfold bind. rewrite Er.
      destruct comp as [[h cv]|x| |]; simpl; try assumption.
      rewrite rasters_app. apply in_or_app. now left. }
    specialize (Hc Hevs). subst comp.
    rewrite (bind_resolved _ _ _ _ _ _ Er).
    destruct (segment_done_windows _ _ _ _ _ Hs) as [Ew [c Ec]].
    rewrite (iterations_step curTop Hseg Hlt) in *.
    destruct (IH (curTop + height_at curTop) released w'
                 ltac:(lia)) as (H1 & H2 & H3).
    { intros c' Hin. apply Hgood.
      rewrite (bind_resolved _ _ _ _ _ _ Er). cbn [events].
      rewrite rasters_app. apply in_or_app. now right. }
    cbn [events final completion].
    rewrite windows_app, rasters_app, !List.length_app, Ew, Ec, H2, H3.
    auto.
  - intros _. apply Z.ltb_ge in Hlt.
    rewrite (iterations_done curTop Hseg Hlt). auto.
Qed.

End Settling.

Section Nominal.

Hypothesis context_available : getContext2d host = true.

Hypothesis render_succeeds :
  forall (o : Options) (w : World U),
    opt_backgroundColor o = opt_backgroundColor option_ ->
    exists c, completion (render host context ele clonedElement o w)
              = Resolved c.

Hypothesis op_completes :
  forall (c : Canvas) (u : U),
    exists u' t, op c u = (u', OpReturns t) /\ (t = None \/ t = Some Fulfils).

Lemma segment_nominal (curTop : Z) (canvas : Canvas) (w : World U) :
  completion (segment host context ele clonedElement option_ segmentHeight
                      op scale width totalHeight curTop canvas w)
  = Resolved (height_at curTop, released).
Proof.
  apply (segment_settles context_available render_succeeds (fun _ => True));
    auto.
Qed.

Lemma sweep_nominal (fuel : nat) :
  0 < segmentHeight ->
  forall (curTop : Z) (canvas : Canvas) (w : World U),
    (passes curTop < fuel)%nat ->
    let r := the_sweep fuel curTop canvas w in
    completion r = Resolved tt /\
    List.length (windows (events r)) = passes curTop /\
    List.length (rasters (events r)) = passes curTop.
Proof.
  intros Hseg curTop canvas w Hn.
  apply (sweep_settles context_available render_succeeds (fun _ => True));
    auto.
Qed.

(** With a segment height that is not positive the sweep uses up any fuel:
    every test of the loop condition starts one more segment. *)
Lemma sweep_nominal_diverges (fuel : nat) :
  segmentHeight <= 0 ->
  forall (curTop : Z) (canvas : Canvas) (w : World U),
    curTop < totalHeight ->
    let r := the_sweep fuel curTop canvas w in
    completion r = OutOfFuel /\ List.length (windows (events r)) = fuel.
Proof.
  intros Hseg. induction fuel as [|fuel IH]; intros curTop canvas w Hlt;
    simpl; [auto|].
  destruct (curTop <? totalHeight) eqn:Hb; [|apply Z.ltb_ge in Hb; lia].
  pose proof (segment_nominal curTop canvas w) as Hc.
  pose proof (segment_shape curTop canvas w) as Hs.
  remember (segment host context ele clonedElement option_ segmentHeight
                    op scale width totalHeight curTop canvas w)
    as r eqn:Er.
  symmetry in Er. destruct r as [evs w' comp]. simpl in Hc. subst comp.
  rewrite (bind_resolved _ _ _ _ _ _ Er).
  destruct (segment_done_windows _ _ _ _ _ Hs) as [Ew _].
  assert (Hnext : curTop + height_at curTop < totalHeight)
    by (unfold segment_height; lia).
  destruct (IH (curTop + height_at curTop) released w' Hnext)
    as (H1 & H2).
  cbn [events final completion].
  rewrite windows_app, List.length_app, Ew, H2. auto.
Qed.

End Nominal.

End Runs.

(** ** The shape of the entry points *)

Section Entry.

Variable host : Host.
Context {U : Type}.

Lemma prepare_shape (element : Arg) (opts : Options) (w : World U) :
  PrepareShape host element w (prepare host element opts w).
Proof.
  unfold prepare.
  destruct element as [| |b|n|s| |e]; simpl;
    try (constructor; left; reflexivity);
    try (match goal with |- context [if ?c then _ else _] => destruct c end;
         constructor; left; reflexivity).
  destruct (ownerDocument e) as [d|] eqn:Hd;
    [|constructor; right; exists e; auto].
  destruct (defaultView d) as [v|] eqn:Hv;
    [|constructor; right; exists e; split; [reflexivity|]; right; left;
      exists d; auto].
  unfold bind, emit; simpl.
  match goal with
  | |- context [clonedReferenceElement host ?c e ?k] =>
      destruct (clonedReferenceElement host c e k) as [ce|] eqn:Hce
  end; simpl.
  - match goal with
    | |- context [toIFrame host e d ?b] =>
        destruct (toIFrame host e d b) as [[]|x] eqn:Hf
    end; simpl.
    + eapply PrepareReady; eauto.
    + apply PrepareLost with (e := e); [reflexivity|].
      right; exists e; split; [reflexivity|]. do 3 right. eauto.
  - apply PrepareLost with (e := e); [reflexivity|].
    right; exists e; split; [reflexivity|]. do 2 right; left. eauto.
Qed.

Lemma segmented_shape (presize : bool) (fuel : nat) (ele : Arg)
    (option_ : option Options) (segmentHeight : Z) (op : Callback U)
    (w : World U) :
  SegmentedShape host fuel ele (option_ ?? emptyOptions) segmentHeight op w
    (segmented host presize fuel ele option_ segmentHeight op w).
Proof.
  unfold segmented.
  destruct (loosely_null ele) eqn:Hnull;
    [constructor; [left; now destruct ele|auto]|].
  pose proof (prepare_shape ele (option_ ?? emptyOptions) w) as Hp.
  remember (prepare host ele (option_ ?? emptyOptions) w) as pr eqn:Ep.
  symmetry in Ep.
  destruct Hp as [x Hu|e x He Hu|e d v context cc ce He Hd Hv Hce].
  - rewrite (bind_rejected _ _ _ _ _ _ Ep). constructor; auto.
  - rewrite (bind_rejected _ _ _ _ _ _ Ep). constructor; eauto.
  - rewrite (bind_resolved _ _ _ _ _ _ Ep). subst ele. simpl.
    destruct (getContext2d host) eqn:Hctx; simpl.
    + unfold capture_segments, bind, emit, destroyContainer,
        DocumentCloner_destroy, ret. whole_numbers.
      match goal with
      | |- context [sweep host context e ce ?o ?s ?p ?sc ?wd ?th ?f ?ct ?cv
                          (entered w)] =>
          pose proof (SegmentedSwept host fuel (ArgElement e) o s p w e d v context
                        cc ce cv eq_refl Hd Hv Hce Hctx) as Hshape;
          pose proof (sweep_run host context e ce o s p sc wd th f ct cv
                        (entered w)) as Hrun;
          remember (sweep host context e ce o s p sc wd th f ct cv
                          (entered w)) as sw eqn:Esw
      end.
      destruct (sweep_keeps_document _ _ _ _ _ _ _ Hrun) as [Hc _].
      unfold conclude in Hshape.
      destruct (completion sw) as [[]|x| |]; simpl in *; try exact Hshape.
      rewrite Hc; simpl. rewrite Nat.eqb_refl; simpl.
      rewrite Hc in Hshape; simpl in Hshape. rewrite Nat.eqb_refl in Hshape.
      simpl in Hshape. rewrite ?app_nil_r. exact Hshape.
    + now constructor.
Qed.

Lemma conclude_completion (pre : list Event) (c : Container)
    (sw : Run U unit) :
  completion (conclude pre c sw) = completion sw.
Proof. unfold conclude. now destruct (completion sw) as [[]|x| |]. Qed.

Lemma conclude_windows (pre : list Event) (c : Container) (sw : Run U unit) :
  windows (events (conclude pre c sw)) = windows pre ++ windows (events sw).
Proof.
  unfold conclude.
  destruct (completion sw) as [[]|x| |]; simpl;
    rewrite !windows_app; simpl; now rewrite ?app_nil_r.
Qed.

Lemma conclude_rasters (pre : list Event) (c : Container) (sw : Run U unit) :
  rasters (events (conclude pre c sw)) = rasters pre ++ rasters (events sw).
Proof.
  unfold conclude.
  destruct (completion sw) as [[]|x| |]; simpl;
    rewrite !rasters_app; simpl; now rewrite ?app_nil_r.
Qed.

(** *** Captures in which nothing fails *)

Lemma nominal_window (e : HTMLElement) (option_ : option Options)
    (op : Callback U) :
  Nominal host e option_ op ->
  exists d v, ownerDocument e = Some d /\ defaultView d = Some v.
Proof. intros [P _]. apply (paintable_window _ _ _ P). Qed.

Lemma nominal_clone (e : HTMLElement) (option_ : option Options)
    (op : Callback U) :
  Nominal host e option_ op ->
  forall context cc, exists ce d,
    clonedReferenceElement host context e cc = Some ce /\
    ownerDocument ce = Some d.
Proof. intros [P _]. apply (paintable_clone _ _ _ P). Qed.

Lemma nominal_iframe (e : HTMLElement) (option_ : option Options)
    (op : Callback U) :
  Nominal host e option_ op -> forall d b, toIFrame host e d b = Ok tt.
Proof. intros [P _]. apply (paintable_iframe _ _ _ P). Qed.

Lemma nominal_context (e : HTMLElement) (option_ : option Options)
    (op : Callback U) :
  Nominal host e option_ op -> getContext2d host = true.
Proof. intros [P _]. apply (paintable_context _ _ _ P). Qed.

Lemma nominal_software (e : HTMLElement) (option_ : option Options)
    (op : Callback U) :
  Nominal host e option_ op ->
  forall cfg root, exists c, CanvasRenderer_render host cfg root = Ok c.
Proof. intros [P _]. apply (paintable_software _ _ _ P). Qed.

Lemma nominal_foreign (e : HTMLElement) (option_ : option Options)
    (op : Callback U) :
  Nominal host e option_ op ->
  forall cfg ce, exists c, ForeignObjectRenderer_render host cfg ce = Ok c.
Proof. intros [P _]. apply (paintable_foreign _ _ _ P). Qed.

Lemma nominal_prepared (e : HTMLElement) (option_ : option Options)
    (op : Callback U) :
  Nominal host e option_ op -> ~ Unprepared host (ArgElement e).
Proof.
  intros N [Hn|(e' & He & H)]; [discriminate|].
  injection He as <-.
  destruct (nominal_window _ _ _ N) as (d & v & Hd & Hv).
  destruct H as [H|[(d' & Hd' & Hv')|[(context & cc & Hc)|(d' & b & x & Hf)]]].
  - congruence.
  - congruence.
  - destruct (nominal_clone _ _ _ N context cc) as (ce & dc & Hce & _).
    congruence.
  - rewrite (nominal_iframe _ _ _ N) in Hf. discriminate.
Qed.

Lemma render_nominal (context : Context) (e ce : HTMLElement)
    (d dc : Document) (v : Window) (override : Override) :
  ownerDocument e = Some d ->
  defaultView d = Some v ->
  ownerDocument ce = Some dc ->
  (exists c, parseBackgroundColor host context ce override = Ok c) ->
  (forall cfg root, exists c, CanvasRenderer_render host cfg root = Ok c) ->
  (forall cfg x, exists c, ForeignObjectRenderer_render host cfg x = Ok c) ->
  forall (o : Options) (w : World U),
    opt_backgroundColor o = override ->
    exists c, completion (render host context e ce o w) = Resolved c.
Proof.
  intros Hd Hv Hdc [bg Hbg] Hsoft Hforeign o w <-.
  unfold render, bind, emit; simpl.
  rewrite Hd, Hv, Hdc, Hbg.
  destruct (isBodyElement host ce || isHTMLElement host ce); simpl;
    destruct (opt_foreignObjectRendering o ?? false); simpl;
    match goal with
    | |- context [ForeignObjectRenderer_render host ?cfg ?x] =>
        destruct (Hforeign cfg x) as [c ->]
    | |- context [CanvasRenderer_render host ?cfg ?root] =>
        destruct (Hsoft cfg root) as [c ->]
    end; simpl; eauto.
Qed.

Lemma paintable_prepared (e : HTMLElement) (option_ : option Options) :
  Paintable host e option_ -> ~ Unprepared host (ArgElement e).
Proof.
  intros P [Hn|(e' & He & H)]; [discriminate|].
  injection He as <-.
  destruct (paintable_window _ _ _ P) as (d & v & Hd & Hv).
  destruct H as [H|[(d' & Hd' & Hv')|[(context & cc & Hc)|(d' & b & x & Hf)]]].
  - congruence.
  - congruence.
  - destruct (paintable_clone _ _ _ P context cc) as (ce & dc & Hce & _).
    congruence.
  - rewrite (paintable_iframe _ _ _ P) in Hf. discriminate.
Qed.

(** A capture on a host that does not fail, with a callback that completes
    on every raster it is handed in that capture, resolves after
    [ceil(scrollHeight / segmentHeight)] segments. *)
Lemma segmented_settles (presize : bool) (fuel : nat) (e : HTMLElement)
    (option_ : option Options) (segmentHeight : Z) (op : Callback U)
    (w : World U) (good : Canvas -> Prop) :
  Paintable host e option_ ->
  (forall c u, good c ->
     exists u' t, op c u = (u', OpReturns t) /\ (t = None \/ t = Some Fulfils)) ->
  0 < segmentHeight ->
  (Z.to_nat (ceil_div (scrollHeight e) segmentHeight) < fuel)%nat ->
  let r := segmented host presize fuel (ArgElement e) option_ segmentHeight
                     op w in
  (forall c, In c (rasters (events r)) -> good c) ->
  completion r = Resolved tt /\
  List.length (windows (events r))
  = Z.to_nat (ceil_div (scrollHeight e) segmentHeight) /\
  List.length (rasters (events r))
  = Z.to_nat (ceil_div (scrollHeight e) segmentHeight).
Proof.
  intros P Hop Hseg Hfuel r. subst r.
  pose proof (segmented_shape presize fuel (ArgElement e) option_
                segmentHeight op w) as Hs.
  remember (segmented host presize fuel (ArgElement e) option_ segmentHeight
                      op w) as r eqn:Er.
  clear Er.
  destruct Hs as [evs x Hu _|e' He Hctx|e' d v context cc ce cv He Hd Hv Hce _].
  - destruct (paintable_prepared _ _ P Hu).
  - rewrite (paintable_context _ _ _ P) in Hctx. discriminate.
  - injection He as <-.
    destruct (paintable_clone _ _ _ P context cc) as (ce' & dc & Hce' & Hdc).
    assert (ce' = ce) as -> by congruence.
    rewrite conclude_completion, conclude_windows, conclude_rasters. simpl.
    assert (Hit : iterations segmentHeight (scrollHeight e) 0
                  = Z.to_nat (ceil_div (scrollHeight e) segmentHeight))
      by (unfold iterations; now rewrite Z.sub_0_r).
    rewrite <- Hit in *.
    apply sweep_settles; try assumption.
    + apply (paintable_context _ _ _ P).
    + apply (render_nominal context e ce d dc v _ Hd Hv Hdc);
        [apply (paintable_background _ _ _ P _ _ _ Hce)
        |apply (paintable_software _ _ _ P)|apply (paintable_foreign _ _ _ P)].
Qed.

Lemma segmented_nominal (presize : bool) (fuel : nat) (e : HTMLElement)
    (option_ : option Options) (segmentHeight : Z) (op : Callback U)
    (w : World U) :
  Nominal host e option_ op ->
  0 < segmentHeight ->
  (Z.to_nat (ceil_div (scrollHeight e) segmentHeight) < fuel)%nat ->
  let r := segmented host presize fuel (ArgElement e) option_ segmentHeight
                     op w in
  completion r = Resolved tt /\
  List.length (windows (events r))
  = Z.to_nat (ceil_div (scrollHeight e) segmentHeight) /\
  List.length (rasters (events r))
  = Z.to_nat (ceil_div (scrollHeight e) segmentHeight).
Proof.
  intros [P Hop] Hseg Hfuel r.
  apply (segmented_settles presize fuel e option_ segmentHeight op w
           (fun _ => True)); auto.
Qed.

Lemma segmented_nominal_diverges (presize : bool) (fuel : nat)
    (e : HTMLElement) (option_ : option Options) (segmentHeight : Z)
    (op : Callback U) (w : World U) :
  Nominal host e option_ op ->
  segmentHeight <= 0 ->
  0 < scrollHeight e ->
  let r := segmented host presize fuel (ArgElement e) option_ segmentHeight
                     op w in
  completion r = OutOfFuel /\ List.length (windows (events r)) = fuel.
Proof.
  intros N Hseg Htotal r. subst r.
  pose proof (segmented_shape presize fuel (ArgElement e) option_
                segmentHeight op w) as Hs.
  remember (segmented host presize fuel (ArgElement e) option_ segmentHeight
                      op w) as r eqn:Er.
  clear Er.
  destruct Hs as [evs x Hu _|e' He Hctx|e' d v context cc ce cv He Hd Hv Hce _].
  - destruct (nominal_prepared _ _ _ N Hu).
  - rewrite (nominal_context _ _ _ N) in Hctx. discriminate.
  - injection He as <-.
    destruct (nominal_clone _ _ _ N context cc) as (ce' & dc & Hce' & Hdc).
    assert (ce' = ce) as -> by congruence.
    rewrite conclude_completion, conclude_windows. simpl.
    apply sweep_nominal_diverges; try assumption.
    + apply (nominal_context _ _ _ N).
    + apply (render_nominal context e ce d dc v _ Hd Hv Hdc);
        [apply (paintable_background _ _ _ (nominal_host _ _ _ _ N) _ _ _ Hce)
        |apply (nominal_software _ _ _ N)|apply (nominal_foreign _ _ _ N)].
    + apply (nominal_op _ _ _ _ N).
Qed.

(** The windows and rasters of a segmented capture are those of its
    sweep, if it gets as far as the sweep. *)
Lemma segmented_sweep (presize : bool) (fuel : nat) (e : HTMLElement)
    (option_ : option Options) (segmentHeight : Z) (op : Callback U)
    (w : World U) :
  let r := segmented host presize fuel (ArgElement e) option_ segmentHeight
                     op w in
  (windows (events r) = [] /\ rasters (events r) = [] /\
   exists x, completion r = Rejected x) \/
  (exists context ce canvas,
     let sw := sweep host context e ce (option_ ?? emptyOptions) segmentHeight
                     op (window_devicePixelRatio host) (scrollWidth e)
                     (scrollHeight e) fuel 0 canvas (entered w) in
     windows (events r) = windows (events sw) /\
     rasters (events r) = rasters (events sw) /\
     completion r = completion sw).
Proof.
  intros r. subst r.
  pose proof (segmented_shape presize fuel (ArgElement e) option_
                segmentHeight op w) as Hs.
  remember (segmented host presize fuel (ArgElement e) option_ segmentHeight
                      op w) as r eqn:Er.
  clear Er.
  destruct Hs as [evs x _ [->|(e' & _ & ->)]|e' He Hctx
                 |e' d v context cc ce cv He Hd Hv Hce _].
  - left; simpl; eauto.
  - left; simpl; eauto.
  - left; simpl; eauto.
  - right. injection He as <-. exists context, ce, cv. simpl.
    now rewrite conclude_completion, conclude_windows, conclude_rasters.
Qed.

Lemma segmented_nominal_empty (presize : bool) (fuel : nat)
    (e : HTMLElement) (option_ : option Options) (segmentHeight : Z)
    (op : Callback U) (w : World U) :
  Nominal host e option_ op ->
  scrollHeight e <= 0 ->
  let r := segmented host presize (S fuel) (ArgElement e) option_
                     segmentHeight op w in
  completion r = Resolved tt /\
  windows (events r) = [] /\ rasters (events r) = [].
Proof.
  intros N Htotal r. subst r.
  pose proof (segmented_shape presize (S fuel) (ArgElement e) option_
                segmentHeight op w) as Hs.
  remember (segmented host presize (S fuel) (ArgElement e) option_
                      segmentHeight op w) as r eqn:Er.
  clear Er.
  destruct Hs as [evs x Hu _|e' He Hctx|e' d v context cc ce cv He Hd Hv Hce _].
  - destruct (nominal_prepared _ _ _ N Hu).
  - rewrite (nominal_context _ _ _ N) in Hctx. discriminate.
  - injection He as <-.
    rewrite conclude_completion, conclude_windows, conclude_rasters.
    now rewrite sweep_empty.
Qed.

Lemma conclude_phases (pre : list Event) (c : Container) (sw : Run U unit)
    (p : Phase) :
  replay Idle pre = Some Idle ->
  replay Idle (events sw) = Some p ->
  explains p (completion sw) ->
  exists q, replay Idle (events (conclude pre c sw)) = Some q /\
            explains q (completion (conclude pre c sw)).
Proof.
  intros Hpre Hsw He. unfold conclude.
  destruct (completion sw) as [[]|x| |] eqn:Hc; simpl;
    rewrite replay_app, Hpre, ?replay_app, ?Hsw.
  - rewrite (explains_resolved _ He). simpl. exists Idle.
    split; [reflexivity|discriminate].
  - now exists p.
  - now exists p.
  - now exists p.
Qed.

Lemma segmented_phases (presize : bool) (fuel : nat) (ele : Arg)
    (option_ : option Options) (segmentHeight : Z) (op : Callback U)
    (w : World U) :
  let r := segmented host presize fuel ele option_ segmentHeight op w in
  exists p, replay Idle (events r) = Some p /\ explains p (completion r).
Proof.
  intros r. subst r.
  pose proof (segmented_shape presize fuel ele option_ segmentHeight op w)
    as Hs.
  remember (segmented host presize fuel ele option_ segmentHeight op w)
    as r eqn:Er.
  clear Er.
  destruct Hs as [evs x _ [->|(e' & _ & ->)]|e' He Hctx
                 |e' d v context cc ce cv He Hd Hv Hce _]; simpl.
  - exists Idle; split; [reflexivity|discriminate].
  - exists Idle; split; [reflexivity|discriminate].
  - exists Idle; split; [reflexivity|discriminate].
  - match goal with
    | |- context [conclude ?pre ?c ?sw] =>
        destruct (sweep_phases _ _ _ _ _ _ _
                    (sweep_run host context e' ce (option_ ?? emptyOptions)
                       segmentHeight op (window_devicePixelRatio host)
                       (scrollWidth e') (scrollHeight e') fuel 0 cv
                       (entered w)))
          as (p & Hp & He');
        apply (conclude_phases pre c sw p eq_refl Hp He')
    end.
Qed.

(** A segmented capture that is rejected has performed no clean-up, and
    the container it put into the document, if any, is still there. *)
Lemma segmented_rejected (presize : bool) (fuel : nat) (ele : Arg)
    (option_ : option Options) (segmentHeight : Z) (op : Callback U)
    (w : World U) (x : Rejection) :
  let r := segmented host presize fuel ele option_ segmentHeight op w in
  completion r = Rejected x ->
  existsb is_cleanup (events r) = false /\
  containers (final r) = inserted (events r) ++ containers w.
Proof.
  intros r. subst r.
  pose proof (segmented_shape presize fuel ele option_ segmentHeight op w)
    as Hs.
  remember (segmented host presize fuel ele option_ segmentHeight op w)
    as r eqn:Er.
  clear Er.
  destruct Hs as [evs y _ [->|(e' & _ & ->)]|e' He Hctx
                 |e' d v context cc ce cv He Hd Hv Hce _]; simpl; auto.
  match goal with
  | |- context [conclude ?pre ?c ?sw] =>
      pose proof (sweep_run host context e' ce (option_ ?? emptyOptions)
                    segmentHeight op (window_devicePixelRatio host)
                    (scrollWidth e') (scrollHeight e') fuel 0 cv (entered w))
        as Hrun;
      remember sw as s eqn:Es; clear Es
  end.
  unfold conclude.
  destruct (completion s) as [[]|y| |] eqn:Hc; simpl; try discriminate.
  intros _.
  pose proof (sweep_no_cleanup _ _ _ _ _ _ _ Hrun) as Hclean.
  pose proof (sweep_no_insert _ _ _ _ _ _ _ Hrun) as Hins.
  destruct (sweep_keeps_document _ _ _ _ _ _ _ Hrun) as [Hk _].
  rewrite Hclean, Hins, Hk. auto.
Qed.

End Entry.

(** ** The demonstration host is nominal *)

Lemma demo_paintable (h : Z) : Paintable Demo.host (Demo.box h) None.
Proof.
  constructor; simpl.
  - now exists Demo.page, Demo.view.
  - intros _ _. now exists (Demo.box h), Demo.page.
  - reflexivity.
  - reflexivity.
  - intros context cc ce [= <-]. now exists Demo.white.
  - intros cfg _. now exists (Demo.paint cfg).
  - intros cfg _. now exists (Demo.paint cfg).
Qed.

Lemma demo_upload_completes : Completes Demo.upload.
Proof. intros c u. exists u, (Some Fulfils). auto. Qed.

Lemma demo_nominal (h : Z) (U : Type) (op : Callback U) :
  Completes op -> Nominal Demo.host (Demo.box h) None op.
Proof. intros Hop. split; [apply demo_paintable|exact Hop]. Qed.

(** * The segmented sweep *)



(** An element exactly one segment tall gives one window. *)
Example one_segment_covers_all :
  windows (events (html2canvasSegmented Demo.host 4 (ArgElement (Demo.box 100))
                     None 100 Demo.upload Demo.world))
  = [(0, 100)].
Proof. reflexivity. Qed.

(** C10, as amended.  For a whole [segmentHeight], in a capture in which
    nothing fails, the loop of [html2canvasSegmented] ends if and only if
    [segmentHeight > 0] or [scrollHeight <= 0].  With a positive
    [segmentHeight] it makes exactly [ceil(scrollHeight / segmentHeight)]
    passes, that is the [n] with
    [(n - 1) * segmentHeight < scrollHeight <= n * segmentHeight], and none
    at all when [scrollHeight <= 0]: then the callback is never invoked and
    the capture resolves.  With [segmentHeight <= 0] and [scrollHeight > 0]
    every height is non-positive, each [curTop] is the one before it plus
    such a height and so never increases (nor rises above 0), and the loop
    starts one more segment for every unit of fuel it is given. *)
Theorem sweep_terminates_iff_positive_step
    (host : Host) (U : Type) (op : Callback U) (e : HTMLElement)
    (option_ : option Options) (segmentHeight : Z) (w : World U) :
  Nominal host e option_ op ->
  let run := fun fuel : nat =>
    html2canvasSegmented host fuel (ArgElement e) option_ segmentHeight op w in
  ((exists fuel, completion (run fuel) <> OutOfFuel)
   <-> (0 < segmentHeight \/ scrollHeight e <= 0)) /\
  (0 < segmentHeight ->
   exists n : nat,
     (0 < scrollHeight e ->
      (Z.of_nat n - 1) * segmentHeight < scrollHeight e
      <= Z.of_nat n * segmentHeight) /\
     (scrollHeight e <= 0 -> n = 0%nat) /\
     forall fuel, (n < fuel)%nat ->
       completion (run fuel) = Resolved tt /\
       List.length (windows (events (run fuel))) = n /\
       List.length (rasters (events (run fuel))) = n) /\
  (scrollHeight e <= 0 ->
   forall fuel, (0 < fuel)%nat ->
     completion (run fuel) = Resolved tt /\
     windows (events (run fuel)) = [] /\ rasters (events (run fuel)) = []) /\
  (segmentHeight <= 0 -> 0 < scrollHeight e ->
   forall fuel,
     completion (run fuel) = OutOfFuel /\
     List.length (windows (events (run fuel))) = fuel /\
     chained segmentHeight (scrollHeight e) 0 (windows (events (run fuel))) /\
     Forall (fun p => fst p <= 0 /\ snd p <= 0) (windows (events (run fuel)))).
Proof.
  intros N run.
  assert (Hpos : 0 < segmentHeight ->
                 exists n : nat,
                   (0 < scrollHeight e ->
                    (Z.of_nat n - 1) * segmentHeight < scrollHeight e
                    <= Z.of_nat n * segmentHeight) /\
                   (scrollHeight e <= 0 -> n = 0%nat) /\
                   forall fuel, (n < fuel)%nat ->
                     completion (run fuel) = Resolved tt /\
                     List.length (windows (events (run fuel))) = n /\
                     List.length (rasters (events (run fuel))) = n).
  { intros Hseg.
    exists (Z.to_nat (ceil_div (scrollHeight e) segmentHeight)).
    pose proof (ceil_div_spec (scrollHeight e) segmentHeight Hseg) as Hc.
    repeat split.
    - rewrite Z2Nat.id by nia. lia.
    - rewrite Z2Nat.id by nia. lia.
    - intros Hle.
      assert (ceil_div (scrollHeight e) segmentHeight <= 0) by nia. lia.
    - apply (segmented_nominal host true); assumption.
    - apply (segmented_nominal host true); assumption.
    - apply (segmented_nominal host true); assumption. }
  assert (Hempty : scrollHeight e <= 0 ->
                   forall fuel, (0 < fuel)%nat ->
                     completion (run fuel) = Resolved tt /\
                     windows (events (run fuel)) = [] /\
                     rasters (events (run fuel)) = []).
  { intros Hle [|fuel] Hfuel; [lia|].
    apply (segmented_nominal_empty host true); assumption. }
  assert (Hneg : segmentHeight <= 0 -> 0 < scrollHeight e ->
                 forall fuel,
                   completion (run fuel) = OutOfFuel /\
                   List.length (windows (events (run fuel))) = fuel /\
                   chained segmentHeight (scrollHeight e) 0
                           (windows (events (run fuel))) /\
                   Forall (fun p => fst p <= 0 /\ snd p <= 0)
                          (windows (events (run fuel)))).
  { intros Hseg Htotal fuel.
    destruct (segmented_nominal_diverges host true fuel e option_
                segmentHeight op w N Hseg Htotal) as [Hc Hl].
    split; [assumption|]. split; [assumption|].
    unfold run, html2canvasSegmented.
    destruct (segmented_sweep host true fuel e option_ segmentHeight op w)
      as [(Ew & _)|(context & ce & cv & Ew & _)]; rewrite Ew;
      [split; [exact I|constructor]|].
    split.
    - eapply sweep_chained, sweep_run.
    - eapply sweep_backwards; [apply sweep_run|assumption|assumption]. }
  split; [split|split; [exact Hpos|split; [exact Hempty|exact Hneg]]].
  - intros [fuel Hfuel].
    destruct (Z_lt_le_dec 0 segmentHeight) as [|Hseg]; [auto|].
    destruct (Z_le_gt_dec (scrollHeight e) 0) as [|Htotal]; [auto|].
    destruct (Hneg Hseg ltac:(lia) fuel) as [Hc _]. congruence.
  - intros [Hseg|Hle].
    + destruct (Hpos Hseg) as (n & _ & _ & Hn). exists (S n).
      destruct (Hn (S n) ltac:(lia)) as [-> _]. discriminate.
    + exists 1%nat. destruct (Hempty Hle 1%nat ltac:(lia)) as [-> _].
      discriminate.
Qed.

Lemma sweep_terminates_iff_positive_step_witness :
  let r := html2canvasSegmented Demo.host 5 (ArgElement (Demo.box 250)) None 0
                                Demo.upload Demo.world in
  completion r = OutOfFuel /\
  List.length (windows (events r)) = 5%nat /\
  chained 0 250 0 (windows (events r)) /\
  Forall (fun p => fst p <= 0 /\ snd p <= 0) (windows (events r)).
Proof.
  exact (proj2 (proj2 (proj2
           (sweep_terminates_iff_positive_step Demo.host unit Demo.upload
              (Demo.box 250) None 0 Demo.world
              (demo_nominal 250 unit Demo.upload demo_upload_completes))))
           ltac:(vm_compute; discriminate) eq_refl 5%nat).
Defined.

(** The claim C10 as it is stated fails for a [segmentHeight] that is not
    a whole number, and for a capture in which a step fails.  With [NaN]
    the height of the first segment is [NaN] and so is the next [curTop],
    which is not below [scrollHeight]: the loop ends after one pass, though
    [NaN > 0] is false and [scrollHeight] is positive.  With [Infinity] it
    makes one pass, where [ceil(250 / Infinity)] is 0.  With 0.1 over an
    element 1 tall the tenth [curTop] is still below 1, and it makes eleven
    passes, where [ceil(1 / 0.1)] is 10.  And with a callback that throws,
    the loop ends with the first segment, whatever [segmentHeight] is. *)
Lemma sweep_ends_on_numbers_that_are_not_whole :
  (let r := html2canvasSegmented DemoJS.host 2 (ArgElement (DemoJS.box 250))
              None nan Demo.upload Demo.world in
   PrimFloat.ltb 0 nan = false /\
   PrimFloat.leb (scrollHeight (DemoJS.box 250)) 0 = false /\
   completion r = Resolved tt /\
   windows (events r) = [(0%float, nan)]) /\
  (let r := html2canvasSegmented DemoJS.host 2 (ArgElement (DemoJS.box 250))
              None infinity Demo.upload Demo.world in
   PrimFloat.ltb 0 infinity = true /\
   Double.ceil (PrimFloat.div 250 infinity) = 0%float /\
   completion r = Resolved tt /\
   windows (events r) = [(0%float, 250%float)]) /\
  (let r := html2canvasSegmented DemoJS.host 12 (ArgElement (DemoJS.box 1))
              None 0.1%float Demo.upload Demo.world in
   PrimFloat.ltb 0 0.1 = true /\
   Double.ceil (PrimFloat.div 1 0.1) = 10%float /\
   completion r = Resolved tt /\
   List.length (windows (events r)) = 11%nat) /\
  (let r := html2canvasSegmented Demo.host 2 (ArgElement (Demo.box 250))
              None 0 Demo.failing Demo.world in
   0 <= 0 /\ 0 < scrollHeight (Demo.box 250) /\
   completion r = Rejected (ErrorObj "disk full") /\
   windows (events r) = [(0, 0)]).
Proof.
  split; [|split; [|split]].
  - repeat split; vm_compute; reflexivity.
  - repeat split; vm_compute; reflexivity.
  - repeat split; vm_compute; reflexivity.
  - split; [discriminate|]. repeat split; reflexivity.
Qed.

(** C7. In [html2canvasSegmented] the trace of every run keeps the order
    render, paint, callback, (await, resume,) clear, release: what follows
    a callback that returned a thenable begins with the await, and anything
    after that await (the clearing of the buffer, the next segment) comes
    after the promise has been fulfilled; a segment is rendered only when
    everything before it is finished; and a run whose promise never settles
    is suspended in the waiting phase. *)
Theorem callback_awaited_before_next_segment
    (host : Host) (U : Type) (op : Callback U) (fuel : nat) (ele : Arg)
    (option_ : option Options) (segmentHeight : Z) (w : World U) :
  let r := html2canvasSegmented host fuel ele option_ segmentHeight op w in
  (exists p, replay Idle (events r) = Some p /\
             (completion r = Resolved tt -> p = Idle) /\
             (completion r = Suspended -> p = Waiting NeverSettles)) /\
  (forall pre c s post,
      events r = pre ++ EvOp c (OpReturns (Some s)) :: post ->
      post = [] \/ post = [EvAwait] \/
      exists rest, post = EvAwait :: EvResume :: rest /\ s = Fulfils) /\
  (forall pre y h post,
      events r = pre ++ EvRender y h :: post -> replay Idle pre = Some Idle).
Proof.
  intros r. subst r. unfold html2canvasSegmented.
  destruct (segmented_phases host true fuel ele option_ segmentHeight op w)
    as (p & Hp & He).
  split; [|split].
  - exists p. split; [assumption|]. split; intros Hc; rewrite Hc in He.
    + now apply explains_resolved.
    + now apply explains_suspended.
  - intros pre c s post E. rewrite E in Hp.
    destruct (replay_split _ _ _ _ _ Hp) as (p1 & p2 & _ & Ha & Hpost).
    rewrite (promise_is_awaited _ _ _ _ Ha) in Hpost.
    apply (after_promise _ _ _ Hpost).
  - intros pre y h post E. rewrite E in Hp.
    destruct (replay_split _ _ _ _ _ Hp) as (p1 & p2 & Hpre & Ha & _).
    now rewrite (render_starts_idle _ _ _ _ Ha) in Hpre.
Qed.

Lemma callback_awaited_before_next_segment_witness :
  exists p,
    replay Idle
      (events (html2canvasSegmented Demo.host 4 (ArgElement (Demo.box 250))
                 None 100 Demo.stuck Demo.world)) = Some p /\
    p = Waiting NeverSettles.
Proof.
  destruct (proj1 (callback_awaited_before_next_segment Demo.host unit
                     Demo.stuck 4 (ArgElement (Demo.box 250)) None 100
                     Demo.world)) as (p & Hp & _ & Hw).
  exists p. split; [exact Hp|exact (Hw eq_refl)].
Defined.

(** C2, as the code has it. When the paint step of a segment or the
    per-segment callback of [html2canvasSegmented] fails (the painter
    throws, the callback throws, or the promise it returned is rejected),
    that step is the last thing the sweep does and the capture is rejected
    with that failure; and a rejected capture has performed none of the
    clean-up that follows the loop: the scratch canvas was not removed and
    the container that was put into the document is still there. *)
Theorem failed_segment_rejects_without_cleanup
    (host : Host) (U : Type) (op : Callback U) (fuel : nat) (ele : Arg)
    (option_ : option Options) (segmentHeight : Z) (w : World U) :
  let r := html2canvasSegmented host fuel ele option_ segmentHeight op w in
  (forall pre k cfg root x post,
      events r = pre ++ EvPaint k cfg root (Throw x) :: post ->
      post = [] /\ completion r = Rejected x) /\
  (forall pre c x post,
      events r = pre ++ EvOp c (OpThrows x) :: post ->
      post = [] /\ completion r = Rejected x) /\
  (forall pre c x post,
      events r = pre ++ EvOp c (OpReturns (Some (RejectsWith x))) :: post ->
      post = [EvAwait] /\ completion r = Rejected x) /\
  (forall x,
      completion r = Rejected x ->
      existsb is_cleanup (events r) = false /\
      containers (final r) = inserted (events r) ++ containers w).
Proof.
  intros r. subst r. unfold html2canvasSegmented.
  destruct (segmented_phases host true fuel ele option_ segmentHeight op w)
    as (p & Hp & He).
  split; [|split; [|split]].
  - intros pre k cfg root x post E.
    apply (stops_at_failure _ _ _ _ _ _ _ Hp He E).
    intros p1 p2. apply failed_paint_phase.
  - intros pre c x post E.
    apply (stops_at_failure _ _ _ _ _ _ _ Hp He E).
    intros p1 p2. apply thrown_op_phase.
  - intros pre c x post E.
    apply (stops_at_rejection _ _ _ _ _ _ _ Hp He E).
  - intros x. apply (segmented_rejected host true).
Qed.

Lemma failed_segment_rejects_without_cleanup_witness :
  let r := html2canvasSegmented Demo.host 4 (ArgElement (Demo.box 250)) None
                                100 Demo.failing Demo.world in
  existsb is_cleanup (events r) = false /\
  containers (final r) = inserted (events r) ++ containers Demo.world.
Proof.
  exact (proj2 (proj2 (proj2
           (failed_segment_rejects_without_cleanup Demo.host unit Demo.failing
              4 (ArgElement (Demo.box 250)) None 100 Demo.world)))
           (ErrorObj "disk full") eq_refl).
Defined.

(** The claim C2 as it is stated fails: the callback throws on the first
    segment, the capture is rejected, and neither clean-up step has run;
    the container is still in the document. *)
Lemma failed_callback_leaves_container :
  let r := html2canvasSegmented Demo.host 4 (ArgElement (Demo.box 250)) None
                                100 Demo.failing Demo.world in
  completion r = Rejected (ErrorObj "disk full") /\
  ~ (In EvRemoveCanvas (events r) /\ containers (final r) = []) /\
  existsb is_cleanup (events r) = false /\
  containers (final r) = [0%nat].
Proof.
  repeat split; try reflexivity.
  intros [_ H]. vm_compute in H. discriminate H.
Qed.

(** * The assignments before the loop *)

(** A segment overwrites both dimensions of the scratch canvas before
    anything reads them, so it does not depend on the canvas it is given. *)
Lemma segment_resizes_first (host : Host) (U : Type) (context : Context)
    (ele clonedElement : HTMLElement) (option_ : Options) (segmentHeight : Z)
    (op : Callback U) (scale : Q) (width totalHeight curTop : Z)
    (canvas canvas' : Canvas) :
  segment host context ele clonedElement option_ segmentHeight op scale width
          totalHeight curTop canvas
  = segment host context ele clonedElement option_ segmentHeight op scale
            width totalHeight curTop canvas'.
Proof. reflexivity. Qed.

Lemma sweep_ignores_canvas (host : Host) (U : Type) (context : Context)
    (ele clonedElement : HTMLElement) (option_ : Options) (segmentHeight : Z)
    (op : Callback U) (scale : Q) (width totalHeight : Z) (fuel : nat)
    (curTop : Z) (canvas canvas' : Canvas) :
  sweep host context ele clonedElement option_ segmentHeight op scale width
        totalHeight fuel curTop canvas
  = sweep host context ele clonedElement option_ segmentHeight op scale width
          totalHeight fuel curTop canvas'.
Proof.
  destruct fuel as [|fuel]; simpl; [reflexivity|].
  destruct (curTop <? totalHeight); [|reflexivity].
  now rewrite (segment_resizes_first host U context ele clonedElement option_
                 segmentHeight op scale width totalHeight curTop canvas
                 canvas').
Qed.

Lemma capture_segments_presized (host : Host) (U : Type) (fuel : nat)
    (e : HTMLElement) (option_ : Options) (segmentHeight : Z)
    (op : Callback U) (context : Context) (clonedElement : HTMLElement)
    (container : Container) (scale : Q) (canvas : Canvas) (w : World U) :
  capture_segments host false fuel e option_ segmentHeight op context
                   clonedElement container scale canvas w
  = capture_segments host true fuel e option_ segmentHeight op context
                     clonedElement container scale canvas w.
Proof.
  unfold capture_segments, bind.
  erewrite (sweep_ignores_canvas host U context e clonedElement option_
              segmentHeight op scale _ _ fuel _ canvas).
  reflexivity.
Qed.

(** C9. The two assignments of [canvas.width] and [canvas.height] that
    precede the loop of [html2canvasSegmented] are redundant: without them
    the function emits the same events (the same target surfaces given to
    the painter, the same rasters given to the callback, the same
    clean-up), leaves the same world and completes the same way, for every
    host, callback and argument. *)
Theorem presizing_is_redundant
    (host : Host) (U : Type) (op : Callback U) (fuel : nat) (ele : Arg)
    (option_ : option Options) (segmentHeight : Z) (w : World U) :
  html2canvasSegmented_unsized host fuel ele option_ segmentHeight op w
  = html2canvasSegmented host fuel ele option_ segmentHeight op w.
Proof.
  unfold html2canvasSegmented_unsized, html2canvasSegmented, segmented.
  destruct (loosely_null ele); [reflexivity|].
  unfold bind.
  destruct (prepare host ele (option_ ?? emptyOptions) w)
    as [evs w' [[[context clonedElement] container]|x| |]]; simpl;
    try reflexivity.
  destruct (element_of ele w') as [evs' w'' [e|x| |]]; simpl;
    try reflexivity.
  destruct (getContext2d host); simpl; [|reflexivity].
  now rewrite capture_segments_presized.
Qed.

(** * Collecting one blob per segment *)

Section Blobs.

Variable host : Host.
Variable mineType : string.
Variable segmentHeight totalHeight : Z.

Local Abbreviation encode := (fun c : Canvas => toBlob host c mineType 1).
Local Abbreviation BlobSegment :=
  (SegmentShape host segmentHeight (blobCallback host mineType) totalHeight).
Local Abbreviation BlobSweep :=
  (SweepRun host segmentHeight (blobCallback host mineType) totalHeight).

Lemma blob_segment_done (curTop : Z) (w w' : World (list Blob))
    (evs : list Event) (v : Z * Canvas) :
  BlobSegment curTop w (mkRun evs w' (Resolved v)) ->
  exists c b,
    rasters evs = [c] /\ encode c = Some b /\ user w' = user w ++ [b].
Proof.
  intros H; inversion H as [| | | | | |p cfg root c u t Hctx Hop Ht]; subst.
  unfold blobCallback in Hop.
  destruct (toBlob host c mineType 1) as [b|] eqn:Hb;
    injection Hop as <- <-.
  - exists c, b. simpl. auto.
  - destruct Ht; discriminate.
Qed.

Lemma blob_segment_null (curTop : Z) (w : World (list Blob))
    (r : Run (list Blob) (Z * Canvas)) (c : Canvas) :
  BlobSegment curTop w r ->
  In c (rasters (events r)) ->
  encode c = None ->
  completion r = Rejected to_blob_failed.
Proof.
  intros H Hin Hnull.
  destruct H as [| | |p cfg root c0 u x Hop|p cfg root c0 u x Hop
                |p cfg root c0 u Hop|p cfg root c0 u t Hctx Hop Ht];
    try (destruct Ht; subst t);
    simpl in Hin; try contradiction;
    destruct Hin as [<-|[]];
    unfold blobCallback in Hop; rewrite Hnull in Hop;
    injection Hop as <- Hop; try discriminate.
  simpl. unfold to_blob_failed. congruence.
Qed.

Lemma blob_sweep_collects (curTop : Z) (w : World (list Blob))
    (r : Run (list Blob) unit) :
  BlobSweep curTop w r ->
  completion r = Resolved tt ->
  map Some (user (final r))
  = map Some (user w) ++ map encode (rasters (events r)).
Proof.
  induction 1 as [ | |? ? ? ? ? ? Hs|? ? ? ? ? Hs|? ? ? ? ? ? ? Hs ? IH];
    simpl; intros Hc; try discriminate.
  - now rewrite app_nil_r.
  - destruct (blob_segment_done _ _ _ _ _ Hs) as (c & b & Er & Eb & Eu).
    rewrite (IH Hc), Eu, rasters_app, Er, !map_app. simpl.
    now rewrite Eb, <- app_assoc.
Qed.

Lemma blob_sweep_null (curTop : Z) (w : World (list Blob))
    (r : Run (list Blob) unit) (c : Canvas) :
  BlobSweep curTop w r ->
  In c (rasters (events r)) ->
  encode c = None ->
  completion r = Rejected to_blob_failed.
Proof.
  induction 1 as [ | |? ? ? ? ? ? Hs|? ? ? ? ? Hs|? ? ? ? ? ? ? Hs ? IH];
    simpl; intros Hin Hnull; try contradiction.
  - pose proof (blob_segment_null _ _ _ _ Hs Hin Hnull) as E.
    simpl in E. now injection E as ->.
  - pose proof (blob_segment_null _ _ _ _ Hs Hin Hnull). discriminate.
  - rewrite rasters_app in Hin. apply in_app_or in Hin as [Hin|Hin].
    + pose proof (blob_segment_null _ _ _ _ Hs Hin Hnull). discriminate.
    + now apply IH.
Qed.

End Blobs.

Lemma conclude_user {U : Type} (pre : list Event) (c : Container)
    (sw : Run U unit) :
  user (final (conclude pre c sw)) = user (final sw).
Proof. unfold conclude. now destruct (completion sw) as [[]|x| |]. Qed.

Lemma segmented_blobs (host : Host) (presize : bool) (fuel : nat) (ele : Arg)
    (option_ : option Options) (segmentHeight : Z) (mineType : string)
    (w : World (list Blob)) :
  user w = [] ->
  let r := segmented host presize fuel ele option_ segmentHeight
                     (blobCallback host mineType) w in
  (completion r = Resolved tt ->
   map Some (user (final r))
   = map (fun c => toBlob host c mineType 1) (rasters (events r))) /\
  (forall c, In c (rasters (events r)) ->
             toBlob host c mineType 1 = None ->
             completion r = Rejected to_blob_failed).
Proof.
  intros Hw r. subst r.
  pose proof (segmented_shape host presize fuel ele option_ segmentHeight
                (blobCallback host mineType) w) as Hs.
  remember (segmented host presize fuel ele option_ segmentHeight
                      (blobCallback host mineType) w) as r eqn:Er.
  clear Er.
  destruct Hs as [evs x _ [->|(e' & _ & ->)]|e' He Hctx
                 |e' d v context cc ce cv He Hd Hv Hce _]; simpl;
    try (split; [discriminate|intros c []]).
  pose proof (sweep_run host context e' ce (option_ ?? emptyOptions)
                segmentHeight (blobCallback host mineType)
                (window_devicePixelRatio host) (scrollWidth e')
                (scrollHeight e') fuel 0 cv (entered w)) as Hrun.
  rewrite conclude_completion, conclude_rasters, conclude_user. simpl.
  split.
  - intros Hc.
    rewrite (blob_sweep_collects _ _ _ _ _ _ _ Hrun Hc). simpl.
    now rewrite Hw.
  - intros c. apply (blob_sweep_null _ _ _ _ _ _ _ _ Hrun).
Qed.

(** C8, as amended.  For an element with a positive [scrollHeight] and a
    positive whole [segmentHeight], in a capture in which the host does not
    fail and every raster handed to the encoder yields a blob,
    [html2canvasSegmentedGetBlobList] resolves to a list with exactly one
    blob per segment, that is [ceil(scrollHeight / segmentHeight)] of them,
    in the order of the segments from top to bottom, each the encoding of
    that segment's raster with the given MIME type ([image/jpeg] by default)
    at quality 1.  In any run the blobs it resolves to are the encodings of
    the rasters in order, and if the encoding of any raster yields [null] it
    is rejected with ["to blob failed!"]. *)
Theorem one_blob_per_segment :
  (forall (host : Host) (U : Type) (e : HTMLElement)
          (option_ : option Options) (segmentHeight : Z)
          (mineType : option string) (w : World U),
      Paintable host e option_ ->
      0 < scrollHeight e ->
      0 < segmentHeight ->
      exists n : nat,
        (Z.of_nat n - 1) * segmentHeight < scrollHeight e
        <= Z.of_nat n * segmentHeight /\
        forall fuel, (n < fuel)%nat ->
          let r := html2canvasSegmentedGetBlobList host fuel (ArgElement e)
                     option_ segmentHeight mineType w in
          (forall c, In c (rasters (events r)) ->
                     toBlob host c (mineType ?? "image/jpeg"%string) 1
                     <> None) ->
          exists blobs,
            completion r = Resolved blobs /\
            List.length blobs = n /\
            List.length (windows (events r)) = n /\
            chained segmentHeight (scrollHeight e) 0 (windows (events r)) /\
            map Some blobs
            = map (fun c => toBlob host c (mineType ?? "image/jpeg"%string) 1)
                  (rasters (events r))) /\
  (forall (host : Host) (U : Type) (fuel : nat) (ele : Arg)
          (option_ : option Options) (segmentHeight : Z)
          (mineType : option string) (w : World U),
      let r := html2canvasSegmentedGetBlobList host fuel ele option_
                 segmentHeight mineType w in
      (forall blobs,
          completion r = Resolved blobs ->
          map Some blobs
          = map (fun c => toBlob host c (mineType ?? "image/jpeg"%string) 1)
                (rasters (events r))) /\
      (forall c,
          In c (rasters (events r)) ->
          toBlob host c (mineType ?? "image/jpeg"%string) 1 = None ->
          completion r = Rejected (ErrorObj "to blob failed!"))).
Proof.
  assert (Hany :
    forall (host : Host) (U : Type) (fuel : nat) (ele : Arg)
           (option_ : option Options) (segmentHeight : Z)
           (mineType : option string) (w : World U),
      let r := html2canvasSegmentedGetBlobList host fuel ele option_
                 segmentHeight mineType w in
      (forall blobs,
          completion r = Resolved blobs ->
          map Some blobs
          = map (fun c => toBlob host c (mineType ?? "image/jpeg"%string) 1)
                (rasters (events r))) /\
      (forall c,
          In c (rasters (events r)) ->
          toBlob host c (mineType ?? "image/jpeg"%string) 1 = None ->
          completion r = Rejected (ErrorObj "to blob failed!"))).
  { intros host U fuel ele option_ segmentHeight mineType w r. subst r.
    unfold html2canvasSegmentedGetBlobList, html2canvasSegmented. simpl.
    destruct (segmented_blobs host true fuel ele option_ segmentHeight
                (mineType ?? "image/jpeg"%string) (set_user w [])
                eq_refl) as [Hres Hnull].
    split.
    - intros blobs Hc.
      destruct (completion (segmented host true fuel ele option_ segmentHeight
                              (blobCallback host
                                 (mineType ?? "image/jpeg"%string))
                              (set_user w []))) as [[]|x| |];
        try discriminate.
      injection Hc as <-. now apply Hres.
    - intros c Hin Hn. now rewrite (Hnull c Hin Hn). }
  split; [|exact Hany].
  intros host U e option_ segmentHeight mineType w P Htotal Hseg.
  exists (Z.to_nat (ceil_div (scrollHeight e) segmentHeight)).
  pose proof (ceil_div_spec (scrollHeight e) segmentHeight Hseg) as Hceil.
  split; [rewrite Z2Nat.id by nia; lia|].
  intros fuel Hfuel r Hblob.
  assert (Er : events r
               = events (segmented host true fuel (ArgElement e) option_
                           segmentHeight
                           (blobCallback host
                              (mineType ?? "image/jpeg"%string))
                           (set_user w []))) by reflexivity.
  destruct (segmented_settles host true fuel e option_ segmentHeight
              (blobCallback host (mineType ?? "image/jpeg"%string))
              (set_user w [])
              (fun c => toBlob host c (mineType ?? "image/jpeg"%string) 1
                        <> None) P)
    as (Hc & Hw & Hr); try assumption.
  { intros c u Hsome. unfold blobCallback.
    destruct (toBlob host c (mineType ?? "image/jpeg"%string) 1) as [b|];
      [|now destruct Hsome].
    exists (u ++ [b])%list, (Some Fulfils). auto. }
  destruct (Hany host U fuel (ArgElement e) option_ segmentHeight mineType w)
    as [Hmap _].
  fold r in Hmap.
  assert (Ec : exists blobs, completion r = Resolved blobs).
  { subst r. unfold html2canvasSegmentedGetBlobList, html2canvasSegmented.
    simpl. rewrite Hc. eauto. }
  destruct Ec as [blobs Ec]. exists blobs.
  pose proof (Hmap blobs Ec) as Hm.
  repeat split; try assumption.
  - rewrite <- (List.length_map Some), Hm, List.length_map, Er. exact Hr.
  - rewrite Er.
    destruct (segmented_sweep host true fuel e option_ segmentHeight
                (blobCallback host (mineType ?? "image/jpeg"%string))
                (set_user w []))
      as [(Ew & _)|(context & ce & cv & Ew & _)]; rewrite Ew;
      [exact I|].
    eapply sweep_chained, sweep_run.
Qed.

Lemma demo_rasters_encode (c : Canvas) :
  In c (rasters (events (html2canvasSegmentedGetBlobList Demo.host 4
                           (ArgElement (Demo.box 250)) None 100 None
                           Demo.world))) ->
  toBlob Demo.host c "image/jpeg"%string 1 <> None.
Proof.
  assert (E : rasters (events (html2canvasSegmentedGetBlobList Demo.host 4
                                 (ArgElement (Demo.box 250)) None 100 None
                                 Demo.world))
              = [mkCanvas 640 200 (Painted 0); mkCanvas 640 200 (Painted 100);
                 mkCanvas 640 100 (Painted 200)])
    by (vm_compute; reflexivity).
  rewrite E. intros Hin.
  destruct Hin as [<-|[<-|[<-|[]]]]; intros H; vm_compute in H;
    discriminate H.
Qed.

Lemma one_blob_per_segment_witness :
  exists n : nat,
    (Z.of_nat n - 1) * 100 < 250 <= Z.of_nat n * 100 /\
    let r := html2canvasSegmentedGetBlobList Demo.host 4
               (ArgElement (Demo.box 250)) None 100 None Demo.world in
    exists blobs,
      completion r = Resolved blobs /\
      List.length blobs = n /\
      List.length (windows (events r)) = n /\
      chained 100 250 0 (windows (events r)) /\
      map Some blobs
      = map (fun c => toBlob Demo.host c "image/jpeg"%string 1)
            (rasters (events r)).
Proof.
  destruct (proj1 one_blob_per_segment Demo.host unit (Demo.box 250) None 100
              None Demo.world (demo_paintable 250) eq_refl eq_refl)
    as (n & Hn & Hall).
  exists n. split; [exact Hn|].
  apply Hall; [|exact demo_rasters_encode].
  change (scrollHeight (Demo.box 250)) with 250 in Hn. nia.
Defined.

(** The claim C8 as it is stated fails twice.  With a device pixel ratio
    of 1/2, an element 101 tall and segments of 100 the raster of the second
    segment is 1/2 pixel tall, that is 0: it has no pixels, its encoding is
    [null], and the call is rejected where two blobs are claimed.  And with
    a [segmentHeight] of [Infinity] the one segment covers the element and
    the call resolves to one blob, where [ceil(250 / Infinity)] is 0. *)
Lemma blob_list_is_not_one_per_segment :
  (let r := html2canvasSegmentedGetBlobList Demo.half 4
              (ArgElement (Demo.half_box 101)) None 100 None Demo.world in
   0 < scrollHeight (Demo.half_box 101) /\ 0 < 100 /\
   completion r = Rejected (ErrorObj "to blob failed!") /\
   map cv_height (rasters (events r)) = [50; 0]) /\
  (let r := html2canvasSegmentedGetBlobList DemoJS.host 4
              (ArgElement (DemoJS.box 250)) None infinity None Demo.world in
   PrimFloat.ltb 0 (scrollHeight (DemoJS.box 250)) = true /\
   PrimFloat.ltb 0 infinity = true /\
   Double.ceil (PrimFloat.div 250 infinity) = 0%float /\
   exists blob, completion r = Resolved [blob]).
Proof.
  split.
  - repeat split; reflexivity.
  - repeat split; try reflexivity. eexists. reflexivity.
Qed.

Example blob_list_of_three :
  completion (html2canvasSegmentedGetBlobList Demo.host 4
                (ArgElement (Demo.box 250)) None 100 None Demo.world)
  = Resolved [mkBlob "image/jpeg" 200; mkBlob "image/jpeg" 200;
              mkBlob "image/jpeg" 100].
Proof. reflexivity. Qed.

(** * The background *)

(** C3, as amended.  [parseBackgroundColor] first computes three colours:
    the background of the document element, that of the body (each the
    transparent colour when the document has no such node) and the colour
    the override stands for: a string gives its parsed colour, [null] the
    transparent colour, nothing opaque white [0xffffffff].  If one of them
    does not parse it throws.  Otherwise it resolves the background by a
    fixed precedence.  For an element that is not the document element the
    override alone decides, whatever the colours of the document and the
    body.  For the document element its own background is used unless it is
    transparent, then the body's unless that is transparent too, and only
    then the override.  So a transparent document with a red body and no
    override resolves to red, and a blue document resolves to blue for any
    override that parses. *)
Theorem background_precedence :
  (forall (host : Host) (context : Context) (element : HTMLElement)
          (d : Document) (o : Override) (document_ body_ default_ : Color),
      ownerDocument element = Some d ->
      computedBackground host context (documentElement d) = Ok document_ ->
      computedBackground host context (body d) = Ok body_ ->
      overrideColor host context o = Ok default_ ->
      (is_documentElement element d = false ->
       parseBackgroundColor host context element o = Ok default_) /\
      (is_documentElement element d = true ->
       isTransparent host document_ = false ->
       parseBackgroundColor host context element o = Ok document_) /\
      (is_documentElement element d = true ->
       isTransparent host document_ = true ->
       isTransparent host body_ = false ->
       parseBackgroundColor host context element o = Ok body_) /\
      (is_documentElement element d = true ->
       isTransparent host document_ = true ->
       isTransparent host body_ = true ->
       parseBackgroundColor host context element o = Ok default_)) /\
  (forall (host : Host) (context : Context) (element : HTMLElement)
          (d : Document) (o : Override) (x : Rejection),
      ownerDocument element = Some d ->
      computedBackground host context (documentElement d) = Throw x \/
      computedBackground host context (body d) = Throw x \/
      overrideColor host context o = Throw x ->
      exists y, parseBackgroundColor host context element o = Throw y) /\
  (forall (host : Host) (context : Context) (s : string),
      overrideColor host context (Str s) = parseColor host context s /\
      overrideColor host context Null = Ok (COLORS_TRANSPARENT host) /\
      overrideColor host context Unset = Ok 0xffffffff) /\
  parseBackgroundColor Demo.host Pages.context (Pages.root_of Demo.page) Unset
  = Ok Demo.red /\
  (forall (o : Override) (c : Color),
      overrideColor Demo.host Pages.context o = Ok c ->
      parseBackgroundColor Demo.host Pages.context
        (Pages.root_of Pages.blue_page) o = Ok Demo.blue) /\
  (forall h : Z,
      parseBackgroundColor Demo.host Pages.context (Demo.box h) Null = Ok 0 /\
      parseBackgroundColor Demo.host Pages.context (Demo.box h) Unset
      = Ok 0xffffffff).
Proof.
  assert (Hgeneral :
    forall (host : Host) (context : Context) (element : HTMLElement)
           (d : Document) (o : Override) (document_ body_ default_ : Color),
      ownerDocument element = Some d ->
      computedBackground host context (documentElement d) = Ok document_ ->
      computedBackground host context (body d) = Ok body_ ->
      overrideColor host context o = Ok default_ ->
      (is_documentElement element d = false ->
       parseBackgroundColor host context element o = Ok default_) /\
      (is_documentElement element d = true ->
       isTransparent host document_ = false ->
       parseBackgroundColor host context element o = Ok document_) /\
      (is_documentElement element d = true ->
       isTransparent host document_ = true ->
       isTransparent host body_ = false ->
       parseBackgroundColor host context element o = Ok body_) /\
      (is_documentElement element d = true ->
       isTransparent host document_ = true ->
       isTransparent host body_ = true ->
       parseBackgroundColor host context element o = Ok default_)).
  { intros host context element d o document_ body_ default_ Hd Hdoc Hbody Ho.
    unfold parseBackgroundColor. rewrite Hd, Hdoc, Hbody, Ho.
    repeat split.
    + now intros ->.
    + now intros -> ->.
    + now intros -> -> ->.
    + now intros -> -> ->. }
  split; [exact Hgeneral|]. split; [|split; [|split; [|split]]].
  - intros host context element d o x Hd H.
    unfold parseBackgroundColor. rewrite Hd.
    destruct (computedBackground host context (documentElement d));
      [|eauto].
    destruct (computedBackground host context (body d)); [|eauto].
    destruct (overrideColor host context o); [|eauto].
    destruct H as [H|[H|H]]; discriminate H.
  - intros host context s. repeat split.
  - reflexivity.
  - intros o c Ho.
    apply (proj1 (proj2 (Hgeneral Demo.host Pages.context
                           (Pages.root_of Pages.blue_page) Pages.blue_page o
                           Demo.blue Demo.red c eq_refl eq_refl eq_refl Ho)));
      reflexivity.
  - intros h. split; reflexivity.
Qed.

Lemma background_precedence_witness :
  parseBackgroundColor Demo.host Pages.context (Pages.root_of Demo.page) Unset
  = Ok Demo.red.
Proof.
  exact (proj1 (proj2 (proj2
           (proj1 background_precedence Demo.host Pages.context
              (Pages.root_of Demo.page) Demo.page Unset 0 Demo.red Demo.white
              eq_refl eq_refl eq_refl eq_refl)))
           eq_refl eq_refl eq_refl).
Defined.

(** The claim C3 as it is stated fails: the override is parsed before the
    precedence is applied, so for the document element of a blue document
    an override that is no colour, the empty string, does not resolve to
    blue: [parseBackgroundColor] throws the error of the parser. *)
Lemma unparsable_override_throws :
  is_documentElement (Pages.root_of Pages.blue_page) Pages.blue_page = true /\
  computedBackground Demo.host Pages.context
    (documentElement Pages.blue_page) = Ok Demo.blue /\
  isTransparent Demo.host Demo.blue = false /\
  parseBackgroundColor Demo.host Pages.context
    (Pages.root_of Pages.blue_page) (Str EmptyString)
  = Throw (ErrorObj "Error parsing CSS component value, unexpected EOF") /\
  parseBackgroundColor Demo.host Pages.context
    (Pages.root_of Pages.blue_page) (Str EmptyString)
  <> Ok Demo.blue.
Proof.
  repeat split; try reflexivity. discriminate.
Qed.

(** C4. On the path of the software painter, [render] hands the painter
    the root of the parsed tree with its background replaced by the
    transparent colour whenever that background is the resolved background
    of the page, and unchanged otherwise; so the painter is never given the
    same colour twice, as the page's and as the root's, unless it is the
    transparent one. *)
Theorem root_background_painted_once
    (host : Host) (U : Type) (context : Context) (e ce : HTMLElement)
    (opts : Options) (w : World U) (d : Document) (v : Window)
    (backgroundColor : Color) :
  ownerDocument e = Some d ->
  defaultView d = Some v ->
  opt_foreignObjectRendering opts ?? false = false ->
  parseBackgroundColor host context ce (opt_backgroundColor opts)
  = Ok backgroundColor ->
  let root := parseTree host context ce in
  exists cfg painted,
    events (render host context e ce opts w)
    = [EvRender (opt_y opts) (opt_height opts);
       EvPaint Software cfg (Some painted)
               (CanvasRenderer_render host cfg painted)] /\
    completion (render host context e ce opts w)
    = completion (lift (CanvasRenderer_render host cfg painted) w) /\
    rc_backgroundColor cfg = backgroundColor /\
    subtree painted = subtree root /\
    (backgroundColor = styles_backgroundColor root ->
     styles_backgroundColor painted = COLORS_TRANSPARENT host) /\
    (backgroundColor <> styles_backgroundColor root -> painted = root) /\
    (rc_backgroundColor cfg = styles_backgroundColor painted ->
     styles_backgroundColor painted = COLORS_TRANSPARENT host).
Proof.
  intros Hd Hv Hsoft Hbg root.
  assert (Hce : exists dc, ownerDocument ce = Some dc).
  { unfold parseBackgroundColor in Hbg.
    destruct (ownerDocument ce) as [dc|]; [eauto|discriminate]. }
  destruct Hce as [dc Hdc].
  unfold render, bind, emit. simpl. rewrite Hd, Hv, Hsoft, Hdc.
  destruct (isBodyElement host ce || isHTMLElement host ce); simpl;
    rewrite Hbg; simpl;
    match goal with
    | |- context [EvPaint Software ?c (Some ?r) _] =>
        exists c, r; destruct (CanvasRenderer_render host c r)
    end;
    (split; [reflexivity|]; split; [reflexivity|]; simpl; fold root;
     unfold paintRoot;
     destruct (Z.eqb_spec backgroundColor (styles_backgroundColor root));
     simpl; repeat split; auto; try contradiction; congruence).
Qed.

Lemma root_background_painted_once_witness :
  exists cfg painted,
    events (render Demo.host Pages.context (Demo.box 250) (Demo.box 250)
                   emptyOptions Demo.world)
    = [EvRender None None;
       EvPaint Software cfg (Some painted)
               (CanvasRenderer_render Demo.host cfg painted)] /\
    rc_backgroundColor cfg = Demo.white /\
    styles_backgroundColor painted = 0.
Proof.
  destruct (root_background_painted_once Demo.host unit Pages.context
              (Demo.box 250) (Demo.box 250) emptyOptions Demo.world Demo.page
              Demo.view Demo.white eq_refl eq_refl eq_refl eq_refl)
    as (cfg & painted & Hev & _ & Hcfg & _ & Hsame & _).
  exists cfg, painted. split; [exact Hev|]. split; [exact Hcfg|].
  exact (Hsame eq_refl).
Defined.

(** * Preconditions *)

(** What [prepare] rejects, both entry points reject, having emitted
    nothing but what [prepare] emitted. *)
Lemma prepare_rejection_propagates (host : Host) (U : Type) (ele : Arg)
    (option_ : option Options) (w : World U) (x : Rejection) :
  completion (prepare host ele (option_ ?? emptyOptions) w) = Rejected x ->
  (html2canvas host ele option_ w
   = mkRun (events (prepare host ele (option_ ?? emptyOptions) w))
           (final (prepare host ele (option_ ?? emptyOptions) w))
           (Rejected x)) /\
  (forall fuel segmentHeight (op : Callback U),
      loosely_null ele = false ->
      html2canvasSegmented host fuel ele option_ segmentHeight op w
      = mkRun (events (prepare host ele (option_ ?? emptyOptions) w))
              (final (prepare host ele (option_ ?? emptyOptions) w))
              (Rejected x)).
Proof.
  intros H. split.
  - unfold html2canvas, renderElement.
    now rewrite (bind_rejected _ _ _ _ _ _
                   (eq_trans (run_eta _) (f_equal _ H))).
  - intros fuel segmentHeight op Hnull.
    unfold html2canvasSegmented, segmented. rewrite Hnull.
    now rewrite (bind_rejected _ _ _ _ _ _
                   (eq_trans (run_eta _) (f_equal _ H))).
Qed.

(** C5. Both entry points reject, with an error that names the cause and
    before any painting work, when a precondition fails:
    [html2canvasSegmented] for a [null] (or [undefined]) element; [prepare],
    and with it [html2canvas] and [html2canvasSegmented], for an argument
    that is not an object, an element without a document, a document without
    a window, and a clone that cannot be found; and
    [html2canvasSegmented] when no 2D context can be had. *)
Theorem preconditions_reject_before_painting
    (host : Host) (U : Type) (option_ : option Options) (w : World U)
    (fuel : nat) (segmentHeight : Z) (op : Callback U) :
  let opts := option_ ?? emptyOptions in
  (forall ele,
      loosely_null ele = true ->
      html2canvasSegmented host fuel ele option_ segmentHeight op w
      = mkRun [] w (Rejected (ErrorObj "element is null"))) /\
  (forall ele,
      truthy ele = false \/ typeof ele <> TObject ->
      prepare host ele opts w
      = mkRun [] w
              (Rejected (Reason "Invalid element provided as first argument")))
  /\
  (forall e,
      ownerDocument e = None ->
      prepare host (ArgElement e) opts w
      = mkRun [] w (Rejected (ErrorObj "Element is not attached to a Document")))
  /\
  (forall e d,
      ownerDocument e = Some d ->
      defaultView d = None ->
      prepare host (ArgElement e) opts w
      = mkRun [] w (Rejected (ErrorObj "Document is not attached to a Window")))
  /\
  (forall e d v,
      ownerDocument e = Some d ->
      defaultView d = Some v ->
      (forall context cc, clonedReferenceElement host context e cc = None) ->
      prepare host (ArgElement e) opts w
      = mkRun [EvClone (node_id e)] w
              (Rejected (Reason "Unable to find element in cloned iframe")))
  /\
  (forall ele x,
      completion (prepare host ele opts w) = Rejected x ->
      let single := html2canvas host ele option_ w in
      let sweeping :=
        html2canvasSegmented host fuel ele option_ segmentHeight op w in
      completion single = Rejected x /\
      existsb is_painting (events single) = false /\
      (loosely_null ele = false -> completion sweeping = Rejected x) /\
      existsb is_painting (events sweeping) = false) /\
  (forall ele prepared,
      loosely_null ele = false ->
      completion (prepare host ele opts w) = Resolved prepared ->
      getContext2d host = false ->
      let sweeping :=
        html2canvasSegmented host fuel ele option_ segmentHeight op w in
      completion sweeping
      = Rejected (ErrorObj "ctx is null, maybe used too may resources") /\
      existsb is_painting (events sweeping) = false).
Proof.
  intros opts. subst opts.
  split; [|split; [|split; [|split; [|split; [|split]]]]].
  - intros ele Hnull. unfold html2canvasSegmented, segmented.
    now rewrite Hnull.
  - intros ele Hbad. unfold prepare.
    destruct ele as [| |b|n|s| |e]; simpl in *; try reflexivity.
    + destruct b; reflexivity.
    + destruct (n =? 0); reflexivity.
    + destruct (String.eqb s ""); reflexivity.
    + destruct Hbad as [Hbad|Hbad]; [discriminate|now destruct Hbad].
  - intros e Hd. unfold prepare. simpl. now rewrite Hd.
  - intros e d Hd Hv. unfold prepare. simpl. now rewrite Hd, Hv.
  - intros e d v Hd Hv Hclone. unfold prepare. simpl. rewrite Hd, Hv.
    unfold bind, emit. simpl. now rewrite Hclone.
  - intros ele x Hrej single sweeping.
    destruct (prepare_rejection_propagates host U ele option_ w x Hrej)
      as [Hsingle Hsweep].
    assert (Hquiet : existsb is_painting
                       (events (prepare host ele (option_ ?? emptyOptions) w))
                     = false).
    { pose proof (prepare_shape host ele (option_ ?? emptyOptions) w) as Hs.
      destruct Hs; reflexivity. }
    subst single sweeping. rewrite Hsingle. simpl.
    repeat split; try assumption.
    + intros Hnull. now rewrite (Hsweep fuel segmentHeight op Hnull).
    + destruct (loosely_null ele) eqn:Hnull.
      * unfold html2canvasSegmented, segmented. now rewrite Hnull.
      * now rewrite (Hsweep fuel segmentHeight op eq_refl).
  - intros ele prepared Hnull Hready Hctx sweeping. subst sweeping.
    unfold html2canvasSegmented, segmented. rewrite Hnull.
    pose proof (prepare_shape host ele (option_ ?? emptyOptions) w) as Hp.
    remember (prepare host ele (option_ ?? emptyOptions) w) as pr eqn:Ep.
    symmetry in Ep.
    destruct Hp as [x Hu|e x He Hu|e d v context cc ce He Hd Hv Hce];
      simpl in Hready; try discriminate.
    rewrite (bind_resolved _ _ _ _ _ _ Ep). subst ele. simpl.
    rewrite Hctx. simpl. auto.
Qed.

Lemma preconditions_reject_before_painting_witness :
  prepare Demo.host (ArgElement (mkElement 3 10 10 None)) emptyOptions
          Demo.world
  = mkRun [] Demo.world
          (Rejected (ErrorObj "Element is not attached to a Document")).
Proof.
  exact (proj1 (proj2 (proj2
           (preconditions_reject_before_painting Demo.host unit None
              Demo.world 4 100 Demo.upload)))
           (mkElement 3 10 10 None) eq_refl).
Defined.

(** * Tearing the container down *)

(** C6 fails for the segmented capture: with [removeContainer: false]
    [html2canvas] leaves the container in the document, as asked, while
    [html2canvasSegmented], given the same element and the same options,
    destroys it after the last segment. *)
Theorem segmented_capture_ignores_removeContainer :
  let single :=
    html2canvas Demo.host (ArgElement (Demo.box 100)) (Some keepContainer)
                Demo.world in
  let sweeping :=
    html2canvasSegmented Demo.host 4 (ArgElement (Demo.box 100))
                         (Some keepContainer) 100 Demo.consume Demo.world in
  (exists canvas, completion single = Resolved canvas) /\
  existsb is_cleanup (events single) = false /\
  containers (final single) = [0%nat] /\
  completion sweeping = Resolved tt /\
  windows (events sweeping) = [(0, 100)] /\
  inserted (events sweeping) = [0%nat] /\
  existsb is_cleanup (events sweeping) = true /\
  containers (final sweeping) = [].
Proof.
  vm_compute. repeat split; try reflexivity. eexists; reflexivity.
Qed.

(** * Further properties of the sweep *)

Lemma painted_app (a b : list Event) :
  painted (a ++ b) = painted a ++ painted b.
Proof.
  induction a as [|e a IH]; simpl; [reflexivity|].
  destruct e; try assumption.
  destruct result; try assumption.
  simpl. now rewrite IH.
Qed.

Lemma releases_app (a b : list Event) :
  releases (a ++ b) = (releases a + releases b)%nat.
Proof.
  induction a as [|e a IH]; simpl; [reflexivity|].
  destruct e; try assumption.
  simpl. now rewrite IH.
Qed.

Section SweepFacts.

Variable host : Host.
Context {U : Type}.
Variable segmentHeight : Z.
Variable op : Callback U.
Variable totalHeight : Z.

Local Abbreviation Segment := (SegmentShape host segmentHeight op totalHeight).
Local Abbreviation Sweep := (SweepRun host segmentHeight op totalHeight).
Local Abbreviation height_at := (segment_height segmentHeight totalHeight).

(** What each shape of a segment leaves: at most one window, the raster
    of that window if it was painted, and one release if it completed. *)
Lemma segment_census (curTop : Z) (w : World U) (r : Run U (Z * Canvas)) :
  Segment curTop w r ->
  rasters (events r) = painted (events r) /\
  user (final r) = fed op (user w) (rasters (events r)) /\
  (releases (events r) <= List.length (rasters (events r))
   <= List.length (windows (events r)))%nat /\
  (List.length (windows (events r)) <= 1)%nat /\
  ((exists v, completion r = Resolved v) ->
   releases (events r) = 1%nat /\
   List.length (rasters (events r)) = 1%nat /\
   List.length (windows (events r)) = 1%nat).
Proof.
  intros H; destruct H as [Hctx|x|p cfg root x|p cfg root c u x Hop
                          |p cfg root c u x Hop|p cfg root c u Hop
                          |p cfg root c u t Hctx Hop Ht];
    try (destruct Ht; subst t); unfold fed; simpl; try rewrite Hop; simpl;
    repeat split; auto; try lia;
    match goal with
    | H : exists _, _ = Resolved _ |- _ => destruct H as [? ?]; discriminate
    end.
Qed.

Lemma sweep_census (curTop : Z) (w : World U) (r : Run U unit) :
  Sweep curTop w r ->
  rasters (events r) = painted (events r) /\
  user (final r) = fed op (user w) (rasters (events r)) /\
  (releases (events r) <= List.length (rasters (events r))
   <= List.length (windows (events r)))%nat /\
  (List.length (windows (events r)) <= S (releases (events r)))%nat /\
  (completion r = Resolved tt ->
   releases (events r) = List.length (windows (events r)) /\
   List.length (rasters (events r)) = List.length (windows (events r))).
Proof.
  induction 1 as [ | |? ? ? ? ? ? Hs|? ? ? ? ? Hs|? ? ? ? ? ? ? Hs ? IH];
    simpl.
  - repeat split; auto.
  - repeat split; auto; discriminate.
  - destruct (segment_census _ _ _ Hs) as (H1 & H2 & H3 & H4 & _).
    simpl in *. repeat split; auto; try lia; discriminate.
  - destruct (segment_census _ _ _ Hs) as (H1 & H2 & H3 & H4 & _).
    simpl in *. repeat split; auto; try lia; discriminate.
  - destruct (segment_census _ _ _ Hs) as (H1 & H2 & H3 & H4 & H5).
    destruct (H5 (ex_intro _ _ eq_refl)) as (R1 & R2 & R3).
    destruct IH as (I1 & I2 & I3 & I4 & I5). simpl in *.
    rewrite rasters_app, painted_app, windows_app, releases_app,
      !List.length_app. whole_numbers.
    split; [now rewrite H1, I1|].
    split; [unfold fed in *; now rewrite fold_left_app, <- H2|].
    split; [lia|]. split; [lia|].
    intros Hc. destruct (I5 Hc). lia.
Qed.

(** With a positive segment height every window of a sweep that starts
    inside the element lies inside the element and is not empty. *)
Lemma sweep_inside (curTop : Z) (w : World U) (r : Run U unit) :
  Sweep curTop w r ->
  0 < segmentHeight ->
  0 <= curTop ->
  Forall (inside segmentHeight totalHeight) (windows (events r)).
Proof.
  induction 1 as [ | |? ? ? ? ? ? Hs|? ? ? ? ? Hs|? ? ? ? ? ? ? Hs ? IH];
    simpl; intros Hseg Hcur; try constructor.
  - destruct (segment_windows _ _ _ _ _ _ _ Hs) as [E|[E _]]; simpl in E;
      rewrite E; repeat constructor; unfold segment_height; simpl; lia.
  - destruct (segment_windows _ _ _ _ _ _ _ Hs) as [E|[E _]]; simpl in E;
      rewrite E; repeat constructor; unfold segment_height; simpl; lia.
  - destruct (segment_done_windows _ _ _ _ _ _ _ _ _ Hs) as [E _].
    rewrite windows_app, E. simpl.
    constructor.
    + unfold inside, segment_height; simpl; lia.
    + apply IH; [assumption|]. unfold segment_height. lia.
Qed.

End SweepFacts.

Lemma conclude_painted {U : Type} (pre : list Event) (c : Container)
    (sw : Run U unit) :
  painted (events (conclude pre c sw)) = painted pre ++ painted (events sw).
Proof.
  unfold conclude.
  destruct (completion sw) as [[]|x| |]; simpl;
    rewrite !painted_app; simpl; now rewrite ?app_nil_r.
Qed.

Lemma conclude_releases {U : Type} (pre : list Event) (c : Container)
    (sw : Run U unit) :
  releases (events (conclude pre c sw))
  = (releases pre + releases (events sw))%nat.
Proof.
  unfold conclude.
  destruct (completion sw) as [[]|x| |]; simpl;
    rewrite !releases_app; simpl; lia.
Qed.

Lemma segmented_census (host : Host) (U : Type) (presize : bool) (fuel : nat)
    (ele : Arg) (option_ : option Options) (segmentHeight : Z)
    (op : Callback U) (w : World U) :
  let r := segmented host presize fuel ele option_ segmentHeight op w in
  rasters (events r) = painted (events r) /\
  user (final r) = fed op (user w) (rasters (events r)) /\
  (releases (events r) <= List.length (rasters (events r))
   <= List.length (windows (events r)))%nat /\
  (List.length (windows (events r)) <= S (releases (events r)))%nat /\
  (completion r = Resolved tt ->
   releases (events r) = List.length (windows (events r)) /\
   List.length (rasters (events r)) = List.length (windows (events r))).
Proof.
  intros r. subst r.
  pose proof (segmented_shape host presize fuel ele option_ segmentHeight
                op w) as Hs.
  remember (segmented host presize fuel ele option_ segmentHeight op w)
    as r eqn:Er.
  clear Er.
  destruct Hs as [evs x _ [->|(e' & _ & ->)]|e' He Hctx
                 |e' d v context cc ce cv He Hd Hv Hce _]; simpl;
    try (repeat split; auto; discriminate).
  rewrite conclude_completion, conclude_rasters, conclude_painted,
    conclude_windows, conclude_releases, conclude_user. simpl.
  apply (sweep_census host segmentHeight op (scrollHeight e') 0 (entered w)).
  apply sweep_run.
Qed.

(** X2. The callback of [html2canvasSegmented] is invoked exactly on the
    canvases the painter resolved to, in that order: never on a canvas that
    was not painted, and never skipping one that was. *)
Theorem callback_gets_every_painted_canvas
    (host : Host) (U : Type) (op : Callback U) (fuel : nat) (ele : Arg)
    (option_ : option Options) (segmentHeight : Z) (w : World U) :
  let r := html2canvasSegmented host fuel ele option_ segmentHeight op w in
  rasters (events r) = painted (events r).
Proof.
  intros r. subst r. unfold html2canvasSegmented.
  apply (segmented_census host U true).
Qed.

(** X3. At any point of [html2canvasSegmented] at most one window has been
    started whose canvas has not been released: the released canvases are
    no more than the rasters handed out, these no more than the windows
    started, and the windows at most one more than the releases; when the
    capture resolves the three numbers agree. *)
Theorem one_raster_in_flight
    (host : Host) (U : Type) (op : Callback U) (fuel : nat) (ele : Arg)
    (option_ : option Options) (segmentHeight : Z) (w : World U) :
  let r := html2canvasSegmented host fuel ele option_ segmentHeight op w in
  (releases (events r) <= List.length (rasters (events r))
   <= List.length (windows (events r)))%nat /\
  (List.length (windows (events r)) <= S (releases (events r)))%nat /\
  (completion r = Resolved tt ->
   releases (events r) = List.length (windows (events r)) /\
   List.length (rasters (events r)) = List.length (windows (events r))).
Proof.
  intros r. subst r. unfold html2canvasSegmented.
  apply (segmented_census host U true).
Qed.

Lemma one_raster_in_flight_witness :
  let r := html2canvasSegmented Demo.host 4 (ArgElement (Demo.box 250)) None
                                100 Demo.upload Demo.world in
  releases (events r) = List.length (windows (events r)) /\
  List.length (rasters (events r)) = List.length (windows (events r)).
Proof.
  exact (proj2 (proj2
           (one_raster_in_flight Demo.host unit Demo.upload 4
              (ArgElement (Demo.box 250)) None 100 Demo.world)) eq_refl).
Defined.

(** X4. With a positive [segmentHeight] every window for which
    [html2canvasSegmented] calls [render] lies inside the element: it starts
    at or after 0 and before [scrollHeight], is not empty, is no taller than
    [segmentHeight] and does not reach beyond [scrollHeight]. *)
Theorem windows_lie_inside_element
    (host : Host) (U : Type) (op : Callback U) (fuel : nat) (e : HTMLElement)
    (option_ : option Options) (segmentHeight : Z) (w : World U) :
  0 < segmentHeight ->
  Forall (inside segmentHeight (scrollHeight e))
         (windows (events (html2canvasSegmented host fuel (ArgElement e)
                             option_ segmentHeight op w))).
Proof.
  intros Hseg. unfold html2canvasSegmented.
  destruct (segmented_sweep host true fuel e option_ segmentHeight op w)
    as [(Ew & _)|(context & ce & cv & Ew & _)]; rewrite Ew; [constructor|].
  eapply sweep_inside; [apply sweep_run|assumption|lia].
Qed.

Lemma windows_lie_inside_element_witness :
  Forall (inside 100 250)
         (windows (events (html2canvasSegmented Demo.host 4
                             (ArgElement (Demo.box 250)) None 100 Demo.upload
                             Demo.world))).
Proof.
  exact (windows_lie_inside_element Demo.host unit Demo.upload 4
           (Demo.box 250) None 100 Demo.world eq_refl).
Defined.

(** * Tearing down, in general *)

Lemma filter_absent (c : Container) (l : list Container) :
  ~ In c l -> filter (fun x => negb (Nat.eqb c x)) l = l.
Proof.
  induction l as [|a l IH]; simpl; intros Hn; [reflexivity|].
  destruct (Nat.eqb_spec c a) as [->|Hne]; simpl.
  - destruct Hn. now left.
  - rewrite IH; [reflexivity|]. intros Hin. apply Hn. now right.
Qed.

(** X5. A segmented capture that resolves has removed the scratch canvas
    and destroyed the container it had put into the document as its last two
    steps, whatever the options say (also with [removeContainer: false]); the
    containers of the document are then those it found. *)
Theorem resolved_sweep_restores_document
    (host : Host) (U : Type) (op : Callback U) (fuel : nat) (ele : Arg)
    (option_ : option Options) (segmentHeight : Z) (w : World U) :
  let r := html2canvasSegmented host fuel ele option_ segmentHeight op w in
  ~ In (fresh w) (containers w) ->
  completion r = Resolved tt ->
  containers (final r) = containers w /\
  inserted (events r) = [fresh w] /\
  exists pre,
    events r = pre ++ [EvRemoveCanvas; EvDestroyContainer (fresh w) true] /\
    existsb is_cleanup pre = false.
Proof.
  intros r. subst r. unfold html2canvasSegmented.
  pose proof (segmented_shape host true fuel ele option_ segmentHeight op w)
    as Hs.
  remember (segmented host true fuel ele option_ segmentHeight op w)
    as r eqn:Er.
  clear Er.
  destruct Hs as [evs x _ _|e' He Hctx
                 |e' d v context cc ce cv He Hd Hv Hce _]; simpl;
    intros Hfresh Hc; try discriminate.
  match goal with
  | |- context [conclude ?pre ?c ?sw] =>
      pose proof (sweep_run host context e' ce (option_ ?? emptyOptions)
                    segmentHeight op (window_devicePixelRatio host)
                    (scrollWidth e') (scrollHeight e') fuel 0 cv (entered w))
        as Hrun;
      remember sw as s eqn:Es; clear Es
  end.
  rewrite conclude_completion in Hc.
  destruct (sweep_keeps_document _ _ _ _ _ _ _ Hrun) as [Hk _].
  pose proof (sweep_no_cleanup _ _ _ _ _ _ _ Hrun) as Hclean.
  pose proof (sweep_no_insert _ _ _ _ _ _ _ Hrun) as Hins.
  unfold conclude. rewrite Hc. simpl. rewrite Hk. simpl.
  rewrite Nat.eqb_refl. simpl. rewrite (filter_absent _ _ Hfresh).
  rewrite inserted_app, Hins. simpl.
  repeat split.
  exists (EvClone (node_id e') :: EvInsertContainer (fresh w) :: events s).
  simpl. now rewrite Hclean.
Qed.

Lemma resolved_sweep_restores_document_witness :
  let r := html2canvasSegmented Demo.host 4 (ArgElement (Demo.box 250))
             (Some keepContainer) 100 Demo.upload Demo.world in
  containers (final r) = containers Demo.world /\
  inserted (events r) = [fresh Demo.world] /\
  exists pre,
    events r
    = pre ++ [EvRemoveCanvas; EvDestroyContainer (fresh Demo.world) true] /\
    existsb is_cleanup pre = false.
Proof.
  exact (resolved_sweep_restores_document Demo.host unit Demo.upload 4
           (ArgElement (Demo.box 250)) (Some keepContainer) 100 Demo.world
           (fun H => H) eq_refl).
Defined.

(** X6. [html2canvas] paints once.  When it resolves, it resolves to the
    canvas the painter resolved to, and it has destroyed the container
    exactly if [removeContainer] is not [false]; when it is rejected, by
    [prepare] or by the painter, it has destroyed nothing, so a container
    that was already in the document stays there. *)
Theorem single_capture_teardown
    (host : Host) (U : Type) (ele : Arg) (option_ : option Options)
    (w : World U) :
  let r := html2canvas host ele option_ w in
  let remove := opt_removeContainer (option_ ?? emptyOptions) ?? true in
  ~ In (fresh w) (containers w) ->
  (List.length (paintings (events r)) <= 1)%nat /\
  (forall c,
      completion r = Resolved c ->
      painted (events r) = [c] /\
      inserted (events r) = [fresh w] /\
      existsb is_cleanup (events r) = remove /\
      containers (final r)
      = if remove then containers w else fresh w :: containers w) /\
  (forall x,
      completion r = Rejected x ->
      existsb is_cleanup (events r) = false /\
      containers (final r) = inserted (events r) ++ containers w).
Proof.
  intros r remove Hfresh. subst r remove.
  unfold html2canvas, renderElement.
  pose proof (prepare_shape host ele (option_ ?? emptyOptions) w) as Hp.
  remember (prepare host ele (option_ ?? emptyOptions) w) as pr eqn:Ep.
  symmetry in Ep.
  destruct Hp as [x Hu|e x He Hu|e d v context cc ce He Hd Hv Hce].
  - rewrite (bind_rejected _ _ _ _ _ _ Ep). simpl.
    repeat split; auto; discriminate.
  - rewrite (bind_rejected _ _ _ _ _ _ Ep). simpl.
    repeat split; auto; discriminate.
  - rewrite (bind_resolved _ _ _ _ _ _ Ep). subst ele. simpl.
    pose proof (render_shape host context e ce (option_ ?? emptyOptions)
                  (entered w)) as Hr.
    remember (render host context e ce (option_ ?? emptyOptions) (entered w))
      as rr eqn:Er.
    symmetry in Er.
    destruct Hr as [x|p cfg root x|p cfg root c].
    + rewrite (bind_rejected _ _ _ _ _ _ Er). simpl.
      repeat split; auto; discriminate.
    + rewrite (bind_rejected _ _ _ _ _ _ Er). simpl.
      repeat split; auto; discriminate.
    + rewrite (bind_resolved _ _ _ _ _ _ Er).
      unfold bind, destroyContainer, DocumentCloner_destroy, emit, ret.
      destruct (opt_removeContainer (option_ ?? emptyOptions) ?? true);
        simpl; rewrite ?Nat.eqb_refl; simpl;
        rewrite ?Nat.eqb_refl, ?(filter_absent _ _ Hfresh); simpl.
      * split; [lia|]. split; [|discriminate].
        intros c0 [= <-]. auto.
      * split; [lia|]. split; [|discriminate].
        intros c0 [= <-]. auto.
Qed.

Lemma single_capture_teardown_witness :
  let r := html2canvas Demo.host (ArgElement (Demo.box 100))
                       (Some keepContainer) Demo.world in
  exists c,
    completion r = Resolved c /\
    painted (events r) = [c] /\
    existsb is_cleanup (events r) = false /\
    containers (final r) = [0%nat].
Proof.
  destruct (single_capture_teardown Demo.host unit (ArgElement (Demo.box 100))
              (Some keepContainer) Demo.world (fun H => H))
    as (_ & Hres & _).
  eexists. split; [reflexivity|].
  destruct (Hres _ eq_refl) as (Hp & _ & Hc & Hk).
  split; [exact Hp|]. split; [exact Hc|exact Hk].
Defined.

(** * The options a segmented capture does not read *)

Lemma prepare_same_options (host : Host) (U : Type) (ele : Arg)
    (a b : Options) (w : World U) :
  same_for_sweep a b -> prepare host ele a w = prepare host ele b w.
Proof.
  destruct a, b. unfold same_for_sweep. simpl.
  intros (-> & -> & -> & -> & -> & -> & -> & -> & -> & -> & -> & -> & ->).
  reflexivity.
Qed.

Lemma render_same_options (host : Host) (U : Type) (context : Context)
    (e ce : HTMLElement) (a b : Options) (canvas : Canvas)
    (curTop height width : Z) (w : World U) :
  same_for_sweep a b ->
  render host context e ce (segmentOptions a canvas curTop height width) w
  = render host context e ce (segmentOptions b canvas curTop height width) w.
Proof.
  destruct a, b. unfold same_for_sweep. simpl.
  intros (-> & -> & -> & -> & -> & -> & -> & -> & -> & -> & -> & -> & ->).
  reflexivity.
Qed.

Lemma segment_same_options (host : Host) (U : Type) (context : Context)
    (e ce : HTMLElement) (a b : Options) (segmentHeight : Z)
    (op : Callback U) (scale : Q) (width totalHeight curTop : Z)
    (canvas : Canvas) (w : World U) :
  same_for_sweep a b ->
  segment host context e ce a segmentHeight op scale width totalHeight curTop
          canvas w
  = segment host context e ce b segmentHeight op scale width totalHeight
            curTop canvas w.
Proof.
  intros Hsame. unfold segment.
  destruct (getContext2d host); [|reflexivity].
  unfold bind.
  now rewrite (render_same_options host U context e ce a b _ _ _ _ w Hsame).
Qed.

Lemma sweep_same_options (host : Host) (U : Type) (context : Context)
    (e ce : HTMLElement) (a b : Options) (segmentHeight : Z)
    (op : Callback U) (scale : Q) (width totalHeight : Z) :
  same_for_sweep a b ->
  forall (fuel : nat) (curTop : Z) (canvas : Canvas) (w : World U),
    sweep host context e ce a segmentHeight op scale width totalHeight fuel
          curTop canvas w
    = sweep host context e ce b segmentHeight op scale width totalHeight fuel
            curTop canvas w.
Proof.
  intros Hsame. induction fuel as [|fuel IH]; intros curTop canvas w; simpl;
    [reflexivity|].
  destruct (curTop <? totalHeight); [|reflexivity].
  unfold bind.
  rewrite (segment_same_options host U context e ce a b segmentHeight op
             scale width totalHeight curTop canvas w Hsame).
  destruct (segment host context e ce b segmentHeight op scale width
                    totalHeight curTop canvas w)
    as [evs w' [[h c]|x| |]]; simpl; try reflexivity.
  now rewrite IH.
Qed.

(** X7. [html2canvasSegmented] does not read the caller's [canvas], [y],
    [width], [height] and [removeContainer]: two calls whose options differ
    in these fields only run alike, event for event. *)
Theorem sweep_ignores_overridden_options
    (host : Host) (U : Type) (op : Callback U) (fuel : nat) (ele : Arg)
    (a b : Options) (segmentHeight : Z) (w : World U) :
  same_for_sweep a b ->
  html2canvasSegmented host fuel ele (Some a) segmentHeight op w
  = html2canvasSegmented host fuel ele (Some b) segmentHeight op w.
Proof.
  intros Hsame. unfold html2canvasSegmented, segmented. simpl.
  destruct (loosely_null ele); [reflexivity|].
  unfold bind.
  rewrite (prepare_same_options host U ele a b w Hsame).
  destruct (prepare host ele b w)
    as [evs w' [[[context clonedElement] container]|x| |]]; simpl;
    try reflexivity.
  destruct (element_of ele w') as [evs' w'' [e|x| |]]; simpl;
    try reflexivity.
  destruct (getContext2d host); simpl; [|reflexivity].
  unfold capture_segments, bind.
  now rewrite (sweep_same_options host U context e clonedElement a b
                 segmentHeight op (window_devicePixelRatio host)
                 (scrollWidth e) (scrollHeight e) Hsame).
Qed.

Lemma sweep_ignores_overridden_options_witness :
  html2canvasSegmented Demo.host 4 (ArgElement (Demo.box 250))
                       (Some keepContainer) 100 Demo.upload Demo.world
  = html2canvasSegmented Demo.host 4 (ArgElement (Demo.box 250))
                         (Some emptyOptions) 100 Demo.upload Demo.world.
Proof.
  apply (sweep_ignores_overridden_options Demo.host unit Demo.upload 4
           (ArgElement (Demo.box 250)) keepContainer emptyOptions 100
           Demo.world).
  repeat split.
Defined.

(** * The background in every painter call *)

Lemma paintings_app (a b : list Event) :
  paintings (a ++ b) = paintings a ++ paintings b.
Proof.
  induction a as [|e a IH]; simpl; [reflexivity|].
  destruct e; try assumption.
  simpl. now rewrite IH.
Qed.

Lemma conclude_paintings {U : Type} (pre : list Event) (c : Container)
    (sw : Run U unit) :
  paintings (events (conclude pre c sw))
  = paintings pre ++ paintings (events sw).
Proof.
  unfold conclude.
  destruct (completion sw) as [[]|x| |]; simpl;
    rewrite !paintings_app; simpl; now rewrite ?app_nil_r.
Qed.

(** Whatever [render] is asked, the painter it calls is not given the
    colour of the page as the colour of the root as well. *)
Lemma render_paints_background_once (host : Host) (U : Type)
    (context : Context) (e ce : HTMLElement) (opts : Options) (w : World U) :
  Forall (paints_background_once host)
         (paintings (events (render host context e ce opts w))).
Proof.
  unfold render, bind, emit; simpl.
  destruct (ownerDocument e) as [d|]; [|constructor].
  destruct (defaultView d) as [v|]; [|constructor].
  destruct (isBodyElement host ce || isHTMLElement host ce);
    [destruct (ownerDocument ce) eqn:Hce; [|constructor]|]; simpl;
    (destruct (parseBackgroundColor host context ce (opt_backgroundColor opts))
       as [bg|]; simpl; [|constructor]);
    (destruct (opt_foreignObjectRendering opts ?? false); simpl;
     match goal with
     | |- context [lift ?t] => destruct t
     end; simpl; repeat constructor;
     unfold paints_background_once, paintRoot; simpl;
     destruct (Z.eqb_spec bg
                 (styles_backgroundColor (parseTree host context ce)));
     simpl; congruence).
Qed.

Lemma segment_paintings_of_render (host : Host) (U : Type)
    (context : Context) (e ce : HTMLElement) (option_ : Options)
    (segmentHeight : Z) (op : Callback U) (scale : Q)
    (width totalHeight curTop : Z) (canvas : Canvas) (w : World U) :
  let r := segment host context e ce option_ segmentHeight op scale width
                   totalHeight curTop canvas w in
  paintings (events r) = [] \/
  exists o, paintings (events r)
            = paintings (events (render host context e ce o w)).
Proof.
  unfold segment.
  destruct (getContext2d host) eqn:Hctx; [|now left].
  right.
  match goal with
  | |- context [render host context e ce ?o] => exists o
  end.
  unfold bind at 1.
  match goal with
  | |- context [completion ?r] => destruct r as [evs w' [c|x| |]]
  end; simpl; try reflexivity.
  unfold bind, invoke, releaseCanvas, emit, await, ret. rewrite Hctx.
  destruct (op c (user w')) as [u r].
  destruct r as [x|[[|x|]|]]; simpl; rewrite paintings_app; simpl;
    now rewrite app_nil_r.
Qed.

Lemma sweep_paints_background_once (host : Host) (U : Type)
    (context : Context) (e ce : HTMLElement) (option_ : Options)
    (segmentHeight : Z) (op : Callback U) (scale : Q)
    (width totalHeight : Z) (fuel : nat) :
  forall (curTop : Z) (canvas : Canvas) (w : World U),
    Forall (paints_background_once host)
           (paintings (events (sweep host context e ce option_ segmentHeight
                                     op scale width totalHeight fuel curTop
                                     canvas w))).
Proof.
  induction fuel as [|fuel IH]; intros curTop canvas w; simpl;
    [constructor|].
  destruct (curTop <? totalHeight); [|constructor].
  pose proof (segment_paintings_of_render host U context e ce option_
                segmentHeight op scale width totalHeight curTop canvas w)
    as Hs.
  assert (Hseg : Forall (paints_background_once host)
                   (paintings (events (segment host context e ce option_
                                         segmentHeight op scale width
                                         totalHeight curTop canvas w)))).
  { destruct Hs as [->|[o ->]]; [constructor|].
    apply render_paints_background_once. }
  unfold bind.
  destruct (segment host context e ce option_ segmentHeight op scale width
                    totalHeight curTop canvas w)
    as [evs w' [[h c]|x| |]]; simpl in *; try assumption.
  rewrite paintings_app. apply Forall_app. split; [assumption|apply IH].
Qed.

(** X10. In no call of a painter, by [html2canvas] or by
    [html2canvasSegmented] for any of its segments, is the colour resolved
    for the page also the colour of the root of the paint tree, unless it is
    the transparent colour: the background is never painted twice. *)
Theorem background_never_painted_twice
    (host : Host) (U : Type) (op : Callback U) (fuel : nat) (ele : Arg)
    (option_ : option Options) (segmentHeight : Z) (w : World U) :
  Forall (paints_background_once host)
         (paintings (events (html2canvas host ele option_ w))) /\
  Forall (paints_background_once host)
         (paintings (events (html2canvasSegmented host fuel ele option_
                               segmentHeight op w))).
Proof.
  split.
  - unfold html2canvas, renderElement.
    pose proof (prepare_shape host ele (option_ ?? emptyOptions) w) as Hp.
    remember (prepare host ele (option_ ?? emptyOptions) w) as pr eqn:Ep.
    symmetry in Ep.
    destruct Hp as [x Hu|e x He Hu|e d v context cc ce He Hd Hv Hce].
    + rewrite (bind_rejected _ _ _ _ _ _ Ep). constructor.
    + rewrite (bind_rejected _ _ _ _ _ _ Ep). constructor.
    + rewrite (bind_resolved _ _ _ _ _ _ Ep). subst ele. simpl.
      pose proof (render_paints_background_once host U context e ce
                    (option_ ?? emptyOptions) (entered w)) as Hr.
      unfold bind at 1.
      destruct (render host context e ce (option_ ?? emptyOptions)
                       (entered w)) as [evs w' [c|x| |]]; simpl in *;
        try assumption.
      rewrite paintings_app. apply Forall_app. split; [assumption|].
      unfold bind, destroyContainer, DocumentCloner_destroy, emit, ret.
      destruct (opt_removeContainer (option_ ?? emptyOptions) ?? true);
        simpl; [|constructor].
      destruct (existsb (Nat.eqb (fresh w)) (containers w')); simpl;
        constructor.
  - unfold html2canvasSegmented.
    pose proof (segmented_shape host true fuel ele option_ segmentHeight op w)
      as Hs.
    remember (segmented host true fuel ele option_ segmentHeight op w)
      as r eqn:Er.
    clear Er.
    destruct Hs as [evs x _ [->|(e' & _ & ->)]|e' He Hctx
                   |e' d v context cc ce cv He Hd Hv Hce _]; simpl;
      try constructor.
    rewrite conclude_paintings. simpl.
    apply sweep_paints_background_once.
Qed.
